(** * Battleship: the board, the fleet and the computer's targeting engine

    A shallow embedding of [Battleship_Game.py].  Python integers are [Z],
    grid cells are the one-character strings the program stores (a blank,
    an X, a dash), lists are Rocq lists indexed the way Python indexes them
    (negative indices count from the end, anything else out of range raises
    [IndexError]), and the [ship_locations] dictionary is an association
    list in insertion order, which is the order Python iterates it in.
    An exception is [None] in the option monad. *)

From Stdlib Require Import ZArith Lia String Bool.
From stdpp Require Import base option list.

Local Open Scope string_scope.
Local Open Scope list_scope.
Local Open Scope Z_scope.

(** ** Python lists *)

Module Py.

(** The position a Python index denotes in a list of [n] elements. *)
Definition norm_index (n : nat) (i : Z) : option nat :=
  if (0 <=? i) && (i <? Z.of_nat n) then Some (Z.to_nat i)
  else if (- Z.of_nat n <=? i) && (i <? 0) then Some (Z.to_nat (i + Z.of_nat n))
  else None.

(** [l[i]] *)
Definition getitem {A} (l : list A) (i : Z) : option A :=
  k ← norm_index (length l) i; l !! k.

(** [l[i] = x] *)
Definition setitem {A} (l : list A) (i : Z) (x : A) : option (list A) :=
  k ← norm_index (length l) i; Some (<[k:=x]> l).

(** [for i in range(start, start + n): s = body i s] *)
Fixpoint for_range {St} (start : Z) (n : nat) (body : Z → St → option St)
  (s : St) : option St :=
  match n with
  | O => Some s
  | S n' => s' ← body start s; for_range (start + 1) n' body s'
  end.

(** [for x in l: s = body x s] *)
Fixpoint for_each {A St} (l : list A) (body : A → St → option St)
  (s : St) : option St :=
  match l with
  | [] => Some s
  | x :: l' => s' ← body x s; for_each l' body s'
  end.

(** [any(f(i) for i in range(start, start + n))]: stops at the first true
    element, and an exception raised by an element escapes. *)
Fixpoint any_range (start : Z) (n : nat) (f : Z → option bool) : option bool :=
  match n with
  | O => Some false
  | S n' =>
      b ← f start;
      if b : bool then Some true else any_range (start + 1) n' f
  end.

(** [[x for x in l if f(x)]], where the test may raise. *)
Fixpoint filter_list {A} (f : A → option bool) (l : list A) : option (list A) :=
  match l with
  | [] => Some []
  | x :: l' =>
      b ← f x;
      r ← filter_list f l';
      Some (if b : bool then x :: r else r)
  end.

(** [m[i][j]], on a list of lists and on a two-dimensional numpy array. *)
Definition getitem2 {A} (m : list (list A)) (i j : Z) : option A :=
  r ← getitem m i; getitem r j.

(** [m[i][j] = v]: the row object [m[i]] is updated in place. *)
Definition setitem2 {A} (m : list (list A)) (i j : Z) (v : A)
  : option (list (list A)) :=
  r ← getitem m i;
  r' ← setitem r j v;
  setitem m i r'.

(** [x in l] *)
Fixpoint contains {A} (eqb : A → A → bool) (x : A) (l : list A) : bool :=
  match l with
  | [] => false
  | y :: l' => eqb y x || contains eqb x l'
  end.

(** [l.remove(x)] for an [x] that is in [l]: the first occurrence goes. *)
Fixpoint remove_first {A} (eqb : A → A → bool) (x : A) (l : list A) : list A :=
  match l with
  | [] => []
  | y :: l' => if eqb y x then l' else y :: remove_first eqb x l'
  end.

End Py.

(** ** Cells, coordinates and grids *)

Abbreviation Coord := (Z * Z)%type.
Abbreviation Grid := (list (list string)).

Definition coord_eqb (p q : Coord) : bool :=
  (p.1 =? q.1) && (p.2 =? q.2).

(** [cell in ["-", "X"]] *)
Definition attacked (cell : string) : bool :=
  String.eqb cell "-" || String.eqb cell "X".

(** ** ShipManager *)

Abbreviation Fleet := (list (string * list Coord)).

Record ShipManager := mkShipManager {
  grid : Grid;
  ship_locations : Fleet;
  opponent : string
}.

(** [ship_locations.setdefault(ship, []).append(p)] *)
Fixpoint setdefault_append (ship : string) (p : Coord) (sl : Fleet) : Fleet :=
  match sl with
  | [] => [(ship, [p])]
  | (k, ps) :: rest =>
      if String.eqb k ship then (k, ps ++ [p]) :: rest
      else (k, ps) :: setdefault_append ship p rest
  end.

Definition deploy_ship (sm : ShipManager) (ship : string)
  (length row column : Z) (orientation : string) : option ShipManager :=
  if String.eqb orientation "H" then
    Py.for_range column (Z.to_nat length) (fun i sm =>
      g ← Py.setitem2 (grid sm) row i "X";
      Some (mkShipManager g
              (setdefault_append ship (row, i) (ship_locations sm))
              (opponent sm))) sm
  else
    Py.for_range row (Z.to_nat length) (fun i sm =>
      g ← Py.setitem2 (grid sm) i column "X";
      Some (mkShipManager g
              (setdefault_append ship (i, column) (ship_locations sm))
              (opponent sm))) sm.

(** The loop of [check_sunk_ship] over the dictionary's items.  Keys of a
    dictionary are unique, so [del ship_locations[ship]] removes the entry
    the loop is at; the [break] that follows ends the loop, and it is only
    reached when the ship has no position left. *)
Fixpoint check_sunk_items (row column : Z) (items : Fleet) : Fleet :=
  match items with
  | [] => []
  | (ship, positions) :: rest =>
      if Py.contains coord_eqb (row, column) positions then
        let positions' := Py.remove_first coord_eqb (row, column) positions in
        match positions' with
        | [] => rest
        | _ :: _ => (ship, positions') :: check_sunk_items row column rest
        end
      else (ship, positions) :: check_sunk_items row column rest
  end.

Definition check_sunk_ship (sm : ShipManager) (row column : Z) : ShipManager :=
  mkShipManager (grid sm)
    (check_sunk_items row column (ship_locations sm)) (opponent sm).

Definition all_ships_sunk (sm : ShipManager) : bool :=
  forallb (fun '(_, positions) =>
             match positions with [] => true | _ :: _ => false end)
          (ship_locations sm).

(** ** BoardValidator *)

Definition check_overlap (g : Grid) (row column : Z) (orientation : string)
  (length : Z) : bool :=
  let r :=
    if String.eqb orientation "H" then
      Py.any_range column (Z.to_nat length) (fun i =>
        cell ← Py.getitem2 g row i; Some (String.eqb cell "X"))
    else
      Py.any_range row (Z.to_nat length) (fun i =>
        cell ← Py.getitem2 g i column; Some (String.eqb cell "X"))
  in
  match r with
  | Some b => b
  | None => true   (* except IndexError: return True *)
  end.

(** ** Players

    [BOARD_SIZE] and [SHIP_TYPES] are read from [config.json], which is not
    part of the sources; they are parameters here.  [SHIP_TYPES] is the
    dictionary from ship names to lengths, in the order of the file. *)

Section Players.

Variable BOARD_SIZE : Z.
Variable SHIP_TYPES : list (string * Z).

(** [[[" "] * BOARD_SIZE for _ in range(BOARD_SIZE)]] *)
Definition new_grid : Grid :=
  replicate (Z.to_nat BOARD_SIZE) (replicate (Z.to_nat BOARD_SIZE) " ").

(** [ShipManager.__init__] *)
Definition new_ShipManager (opponent : string) : ShipManager :=
  mkShipManager new_grid [] opponent.

Definition validate_placement (length row column : Z) (orientation : string)
  : bool :=
  if String.eqb orientation "H" then column + length <=? BOARD_SIZE
  else row + length <=? BOARD_SIZE.

(** The part of a [BasePlayer] the game logic reads and writes (the
    display, the validator and the unused [hit_directions] are left out). *)
Record BasePlayer := mkBasePlayer {
  name : string;
  ship_manager : ShipManager;
  attack_board : ShipManager
}.

Definition new_BasePlayer (name : string) : BasePlayer :=
  let opponent_name :=
    if String.eqb name "Player" then "Computer" else "Player" in
  mkBasePlayer name (new_ShipManager opponent_name)
    (new_ShipManager opponent_name).

(** The probability map is a numpy array of floats holding small whole
    numbers; its entries are integers here. *)
Record ComputerPlayer := mkComputerPlayer {
  base : BasePlayer;
  last_hit : option Coord;
  hit_stack : list Coord;
  direction : option string;
  probability_map : list (list Z)
}.

(** [np.zeros((BOARD_SIZE, BOARD_SIZE))] *)
Definition np_zeros : list (list Z) :=
  replicate (Z.to_nat BOARD_SIZE) (replicate (Z.to_nat BOARD_SIZE) 0).

(** [ComputerPlayer.__init__] *)
Definition new_ComputerPlayer : ComputerPlayer :=
  mkComputerPlayer (new_BasePlayer "Computer") None [] None np_zeros.

Definition attack_grid (self : ComputerPlayer) : Grid :=
  grid (attack_board (base self)).

Definition set_attack_grid (self : ComputerPlayer) (g : Grid) : ComputerPlayer :=
  let b := base self in
  let ab := attack_board b in
  mkComputerPlayer
    (mkBasePlayer (name b) (ship_manager b)
       (mkShipManager g (ship_locations ab) (opponent ab)))
    (last_hit self) (hit_stack self) (direction self) (probability_map self).

Definition set_probability_map (self : ComputerPlayer) (pm : list (list Z))
  : ComputerPlayer :=
  mkComputerPlayer (base self) (last_hit self) (hit_stack self)
    (direction self) pm.

Definition set_hunt (self : ComputerPlayer) (lh : option Coord)
  (hs : list Coord) (d : option string) : ComputerPlayer :=
  mkComputerPlayer (base self) lh hs d (probability_map self).

Definition set_ship_manager (p : BasePlayer) (sm : ShipManager) : BasePlayer :=
  mkBasePlayer (name p) sm (attack_board p).

(** [BasePlayer.can_place_ship]; the [opponent] argument is never read.
    The inner loop returns [False] at the first attacked cell. *)
Definition can_place_ship (self : ComputerPlayer) (opponent : BasePlayer)
  (row col length : Z) (orientation : string) : option bool :=
  if String.eqb orientation "H" then
    if col + length >? BOARD_SIZE then Some false
    else
      hit ← Py.any_range 0 (Z.to_nat length) (fun i =>
        cell ← Py.getitem2 (attack_grid self) row (col + i);
        Some (attacked cell));
      Some (negb hit)
  else
    if row + length >? BOARD_SIZE then Some false
    else
      hit ← Py.any_range 0 (Z.to_nat length) (fun i =>
        cell ← Py.getitem2 (attack_grid self) (row + i) col;
        Some (attacked cell));
      Some (negb hit).

(** [0 <= r < BOARD_SIZE and 0 <= c < BOARD_SIZE and grid[r][c] not in
    ["-", "X"]]: the grid is only read for a coordinate on the board. *)
Definition valid_move (g : Grid) (p : Coord) : option bool :=
  let '(r, c) := p in
  if (0 <=? r) && (r <? BOARD_SIZE) && (0 <=? c) && (c <? BOARD_SIZE) then
    cell ← Py.getitem2 g r c; Some (negb (attacked cell))
  else Some false.

(** [probability_map[row][col] += 1] *)
Definition incr_cell (pm : list (list Z)) (row col : Z)
  : option (list (list Z)) :=
  w ← Py.getitem2 pm row col; Py.setitem2 pm row col (w + 1).

(** The first double loop of [update_probability_map]: weight 0 on the
    attacked cells and 1 on the others. *)
Definition base_weights (self : ComputerPlayer) (pm : list (list Z))
  : option (list (list Z)) :=
  Py.for_range 0 (Z.to_nat BOARD_SIZE) (fun row pm =>
    Py.for_range 0 (Z.to_nat BOARD_SIZE) (fun col pm =>
      cell ← Py.getitem2 (attack_grid self) row col;
      if attacked cell then Py.setitem2 pm row col 0
      else Py.setitem2 pm row col 1) pm) pm.

(** The cells of one placement, each incremented unless attacked. *)
Definition add_run (self : ComputerPlayer) (row col length : Z)
  (orientation : string) (pm : list (list Z)) : option (list (list Z)) :=
  if String.eqb orientation "H" then
    Py.for_range 0 (Z.to_nat length) (fun i pm =>
      cell ← Py.getitem2 (attack_grid self) row (col + i);
      if negb (attacked cell) then incr_cell pm row (col + i) else Some pm) pm
  else
    Py.for_range 0 (Z.to_nat length) (fun i pm =>
      cell ← Py.getitem2 (attack_grid self) (row + i) col;
      if negb (attacked cell) then incr_cell pm (row + i) col else Some pm) pm.

(** The second loop nest of [update_probability_map], over the items of a
    dictionary of ships. *)
Definition count_placements (ships : list (string * Z))
  (self : ComputerPlayer) (opponent : BasePlayer) (pm : list (list Z))
  : option (list (list Z)) :=
  Py.for_each ships (fun '(ship, length) pm =>
    Py.for_range 0 (Z.to_nat BOARD_SIZE) (fun row pm =>
      Py.for_range 0 (Z.to_nat BOARD_SIZE) (fun col pm =>
        h ← can_place_ship self opponent row col length "H";
        pm ← (if h : bool then add_run self row col length "H" pm
              else Some pm);
        v ← can_place_ship self opponent row col length "V";
        if v : bool then add_run self row col length "V" pm
        else Some pm) pm) pm) pm.

Definition update_probability_map (self : ComputerPlayer)
  (opponent : BasePlayer) : option ComputerPlayer :=
  let pm : list (list Z) :=                                   (* fill(0) *)
    (fun row : list Z => (fun _ => 0) <$> row) <$> probability_map self in
  pm ← base_weights self pm;
  pm ← count_placements SHIP_TYPES self opponent pm;
  Some (set_probability_map self pm).

(** [np.argmax] of a flat array: the index of the first largest entry; an
    empty array raises. *)
Fixpoint argmax_from (l : list Z) (i best_i : nat) (best : Z) : nat :=
  match l with
  | [] => best_i
  | x :: l' =>
      if best <? x then argmax_from l' (S i) i x
      else argmax_from l' (S i) best_i best
  end.

Definition argmax (l : list Z) : option nat :=
  match l with
  | [] => None
  | x :: l' => Some (argmax_from l' 1 0 x)
  end.

(** [np.unravel_index(np.argmax(m), m.shape)]: numpy flattens row by row. *)
Definition argmax_index (m : list (list Z)) : option Coord :=
  k ← argmax (concat m);
  let cols := Z.of_nat (length (default [] (head m))) in
  Some (Z.of_nat k / cols, Z.of_nat k mod cols).

(** [random.choice(seq)] with the index it draws given as [rnd]. *)
Definition choice {A} (rnd : nat) (seq : list A) : option A :=
  seq !! (rnd mod length seq)%nat.

(** The neighbours of [last_hit] that the hunt considers, before they are
    filtered: two along a known direction, four otherwise. *)
Definition possible_moves (d : option string) (row column : Z) : list Coord :=
  match d with
  | Some s =>
      if negb (String.eqb s "") then
        if String.eqb s "H" then [(row, column - 1); (row, column + 1)]
        else [(row - 1, column); (row + 1, column)]
      else [(row - 1, column); (row + 1, column);
            (row, column - 1); (row, column + 1)]
  | None => [(row - 1, column); (row + 1, column);
             (row, column - 1); (row, column + 1)]
  end.

(** The fall-back of the hunt, and the third priority with [reset] off:
    the hunt state is cleared, the map recomputed and its first largest
    entry chosen. *)
Definition probability_target (reset : bool) (self : ComputerPlayer)
  (opponent : BasePlayer) : option (Coord * ComputerPlayer) :=
  let self := if reset then set_hunt self None [] None else self in
  self ← update_probability_map self opponent;
  p ← argmax_index (probability_map self);
  Some (p, self).

(** The first half of [take_turn]: the coordinate to attack. *)
Definition select_target (rnd : nat) (self : ComputerPlayer)
  (opponent : BasePlayer) : option (Coord * ComputerPlayer) :=
  match hit_stack self with
  | p :: rest =>                                   (* hit_stack.pop(0) *)
      Some (p, set_hunt self (last_hit self) rest (direction self))
  | [] =>
      match last_hit self with
      | Some (row, column) =>
          moves ← Py.filter_list (valid_move (attack_grid self))
                    (possible_moves (direction self) row column);
          match moves with
          | _ :: _ => p ← choice rnd moves; Some (p, self)
          | [] => probability_target true self opponent
          end
      | None => probability_target false self opponent
      end
  end.

(** The second half of [take_turn]: the attack at [(row, column)]. *)
Definition process_attack (self : ComputerPlayer) (opponent : BasePlayer)
  (row column : Z) : option (ComputerPlayer * BasePlayer) :=
  cell ← Py.getitem2 (grid (ship_manager opponent)) row column;
  if String.eqb cell "X" then
    g ← Py.setitem2 (attack_grid self) row column "X";
    let self := set_attack_grid self g in
    self ←
      match last_hit self with
      | Some (lr, lc) =>
          let d :=
            if row =? lr then Some "H"
            else if column =? lc then Some "V"
            else direction self in
          let next_moves :=
            if match d with Some s => String.eqb s "H" | None => false end
            then [(row, Z.min column lc - 1); (row, Z.max column lc + 1)]
            else [(Z.min row lr - 1, column); (Z.max row lr + 1, column)] in
          valid_moves ← Py.filter_list (valid_move (attack_grid self))
                          next_moves;
          Some (set_hunt self (last_hit self)
                  (hit_stack self ++ valid_moves) d)
      | None => Some self
      end;
    let self := set_hunt self (Some (row, column)) (hit_stack self)
                  (direction self) in
    Some (self,
          set_ship_manager opponent
            (check_sunk_ship (ship_manager opponent) row column))
  else
    g ← Py.setitem2 (attack_grid self) row column "-";
    Some (set_attack_grid self g, opponent).

Definition take_turn (rnd : nat) (self : ComputerPlayer)
  (opponent : BasePlayer) : option (ComputerPlayer * BasePlayer) :=
  '(p, self) ← select_target rnd self opponent;
  process_attack self opponent p.1 p.2.

End Players.

(** * Vocabulary of the statements *)

(** A square [n] by [n] list of lists. *)
Definition shape {A} (n : nat) (m : list (list A)) : Prop :=
  length m = n ∧ Forall (fun r => length r = n) m.


(** The cells of a placement, in the order the loops visit them. *)
Definition run_cells (row column : Z) (orientation : string) (length : Z)
  : list Coord :=
  if String.eqb orientation "H" then
    map (fun k => (row, column + Z.of_nat k)) (seq 0 (Z.to_nat length))
  else
    map (fun k => (row + Z.of_nat k, column)) (seq 0 (Z.to_nat length)).

(** A coordinate of the board: both indices in [[0, n)]. *)
Definition on_board (n : Z) (p : Coord) : bool :=
  (0 <=? p.1) && (p.1 <? n) && (0 <=? p.2) && (p.2 <? n).

(** A coordinate Python can index an [n] by [n] grid with: both indices in
    [[-n, n)]. *)
Definition indexable (n : Z) (p : Coord) : bool :=
  (- n <=? p.1) && (p.1 <? n) && (- n <=? p.2) && (p.2 <? n).

(** [ship_locations.get(ship)] and [ship_locations.get(ship, [])] *)
Fixpoint fleet_get (ship : string) (sl : Fleet) : option (list Coord) :=
  match sl with
  | [] => None
  | (k, ps) :: rest =>
      if String.eqb k ship then Some ps else fleet_get ship rest
  end.

Definition positions_of (ship : string) (sl : Fleet) : list Coord :=
  default [] (fleet_get ship sl).

(** How many ships of a fleet hold a coordinate. *)
Fixpoint ships_holding (p : Coord) (sl : Fleet) : nat :=
  match sl with
  | [] => O
  | (_, ps) :: rest =>
      ((if Py.contains coord_eqb p ps then 1 else 0) + ships_holding p rest)%nat
  end.

(** [check_sunk_ship] as the specification words it: the coordinate is
    removed from the first ship that holds it, that ship's entry is deleted
    when nothing is left of it, and no other entry is touched. *)
Fixpoint check_sunk_first_match (row column : Z) (items : Fleet) : Fleet :=
  match items with
  | [] => []
  | (ship, positions) :: rest =>
      if Py.contains coord_eqb (row, column) positions then
        match Py.remove_first coord_eqb (row, column) positions with
        | [] => rest
        | positions' => (ship, positions') :: rest
        end
      else (ship, positions) :: check_sunk_first_match row column rest
  end.

(** Whether the attack board shows a hit or a miss at a coordinate. *)
Definition cell_attacked (g : Grid) (p : Coord) : bool :=
  match Py.getitem2 g p.1 p.2 with
  | Some cell => attacked cell
  | None => false
  end.

(** A placement that fits on the board and runs over no attacked cell. *)
Definition placeable (n : Z) (g : Grid) (row col length : Z)
  (orientation : string) : bool :=
  (if String.eqb orientation "H" then col + length <=? n
   else row + length <=? n)
  && forallb (fun p => negb (cell_attacked g p))
       (run_cells row col orientation length).

(** Whether a placement runs over a coordinate. *)
Definition covers (row col length : Z) (orientation : string) (p : Coord)
  : bool :=
  if String.eqb orientation "H" then
    (p.1 =? row) && (col <=? p.2) && (p.2 <? col + length)
  else
    (p.2 =? col) && (row <=? p.1) && (p.1 <? row + length).

Fixpoint sum_range (start : Z) (k : nat) (f : Z → Z) : Z :=
  match k with
  | O => 0
  | S k' => f start + sum_range (start + 1) k' f
  end.

Fixpoint sum_list {A} (f : A → Z) (l : list A) : Z :=
  match l with
  | [] => 0
  | x :: l' => f x + sum_list f l'
  end.

(** The number of placeable placements of one length that run over a
    coordinate, horizontal and vertical. *)
Definition placements_through (n : Z) (g : Grid) (length : Z) (p : Coord) : Z :=
  sum_range 0 (Z.to_nat n) (fun row =>
    sum_range 0 (Z.to_nat n) (fun col =>
      (if placeable n g row col length "H" && covers row col length "H" p
       then 1 else 0) +
      (if placeable n g row col length "V" && covers row col length "V" p
       then 1 else 0))).

(** The weight of a cell for a dictionary of ships: nothing on an attacked
    cell, and otherwise one more than the placements through it, every ship
    of the dictionary counted. *)
Definition expected_weight (n : Z) (ships : list (string * Z)) (g : Grid)
  (p : Coord) : Z :=
  if cell_attacked g p then 0
  else 1 + sum_list (fun '(_, length) => placements_through n g length p) ships.

(** The ships of the configuration that are still in the opponent's fleet. *)
Definition remaining_ships (ships : list (string * Z)) (opponent : BasePlayer)
  : list (string * Z) :=
  List.filter (fun '(ship, _) =>
    match fleet_get ship (ship_locations (ship_manager opponent)) with
    | Some _ => true
    | None => false
    end) ships.

(** The cells the hunt looks at around [last_hit], spelled out cell by
    cell: the two cells next to it on its row when the direction is "H",
    the two cells next to it on its column for any other direction, and,
    when no direction is known, the cell above, the cell below, the cell to
    the left and the cell to the right, in this order. *)
Definition hunt_cells (d : option string) (row column : Z) : list Coord :=
  let cell_left := (row, column - 1) in
  let cell_right := (row, column + 1) in
  let cell_above := (row - 1, column) in
  let cell_below := (row + 1, column) in
  match d with
  | None => [cell_above; cell_below; cell_left; cell_right]
  | Some s =>
      if String.eqb s "" then [cell_above; cell_below; cell_left; cell_right]
      else if String.eqb s "H" then [cell_left; cell_right]
      else [cell_above; cell_below]
  end.

(** The candidates of the hunt around [last_hit]: the cells it looks at
    that are on the board and not attacked, in the same order. *)
Definition hunt_candidates (n : Z) (self : ComputerPlayer) (row column : Z)
  : list Coord :=
  List.filter
    (fun p => on_board n p && negb (cell_attacked (attack_grid self) p))
    (hunt_cells (direction self) row column).

(** No entry of the dictionary has an empty list of positions. *)
Definition no_empty_entry (sl : Fleet) : Prop :=
  Forall (fun e => e.2 ≠ []) sl.

(** [pm'] is an [n] by [n] map that has [d r c] more than [pm] in every
    cell of the board. *)
Definition adds (n : nat) (d : Z → Z → Z) (pm pm' : list (list Z)) : Prop :=
  shape n pm' ∧
  ∀ r c, 0 <= r < Z.of_nat n → 0 <= c < Z.of_nat n →
    Py.getitem2 pm' r c = (fun w => w + d r c) <$> Py.getitem2 pm r c.

(** The states a [ShipManager] goes through: created empty, ships deployed,
    hits registered, and its grid written by the players' turns. *)
Inductive fleet_state (n : Z) : ShipManager → Prop :=
| fleet_init opponent : fleet_state n (new_ShipManager n opponent)
| fleet_deploy sm ship length row column orientation sm' :
    fleet_state n sm →
    deploy_ship sm ship length row column orientation = Some sm' →
    fleet_state n sm'
| fleet_hit sm row column :
    fleet_state n sm → fleet_state n (check_sunk_ship sm row column)
| fleet_grid sm g :
    fleet_state n sm →
    fleet_state n (mkShipManager g (ship_locations sm) (opponent sm)).

(** ** A game on the 8 by 8 board

    The board of the program's display (columns A to H) and the classic
    fleet of five, as a configuration to run the definitions on. *)

Definition fleet5 : list (string * Z) :=
  [("Carrier", 5); ("Battleship", 4); ("Cruiser", 3); ("Submarine", 3);
   ("Destroyer", 2)].

(** [GameSetup.deploy_all_ships] on a given list of placements, each one
    accepted by [validate_placement] and [check_overlap]. *)
Definition deploy_all (sm : ShipManager)
  (l : list (string * Z * Z * Z * string)) : option ShipManager :=
  Py.for_each l (fun '(ship, len, r, c, o) sm =>
    if validate_placement 8 len r c o
       && negb (check_overlap (grid sm) r c o len)
    then deploy_ship sm ship len r c o else None) sm.

(** The human's fleet: the Carrier on row 3 from column 1 to column 5. *)
Definition human_start : option BasePlayer :=
  sm ← deploy_all (new_ShipManager 8 "Computer")
          [("Carrier", 5, 3, 1, "H"); ("Battleship", 4, 0, 0, "H");
           ("Cruiser", 3, 5, 0, "H"); ("Submarine", 3, 6, 4, "H");
           ("Destroyer", 2, 7, 0, "H")];
  Some (set_ship_manager (new_BasePlayer 8 "Player") sm).

(** Computer turns in a row, one drawn index per turn.  The human's turns
    in between write the human's attack board and the computer's fleet,
    which no computer turn reads. *)
Fixpoint turns (rnds : list nat) (st : ComputerPlayer * BasePlayer)
  : option (ComputerPlayer * BasePlayer) :=
  match rnds with
  | [] => Some st
  | r :: rs => st' ← take_turn 8 fleet5 r st.1 st.2; turns rs st'
  end.

Definition game_start : option (ComputerPlayer * BasePlayer) :=
  h ← human_start; Some (new_ComputerPlayer 8, h).

(** A second fleet for the human: the Destroyer on row 3, columns 3 and 4. *)
Definition human_start_destroyer : option BasePlayer :=
  sm ← deploy_all (new_ShipManager 8 "Computer")
          [("Carrier", 5, 0, 0, "H"); ("Battleship", 4, 7, 0, "H");
           ("Cruiser", 3, 5, 0, "H"); ("Submarine", 3, 6, 4, "H");
           ("Destroyer", 2, 3, 3, "H")];
  Some (set_ship_manager (new_BasePlayer 8 "Player") sm).

Definition game_start_destroyer : option (ComputerPlayer * BasePlayer) :=
  h ← human_start_destroyer; Some (new_ComputerPlayer 8, h).

(** ** The rest of the setup and the human's turn *)

(** One answer of the placement source: the computer's random draw or the
    human's validated input, as (row, column, orientation). *)
Abbreviation Attempt := (Z * Z * string)%type.

Section Setup.

Variable BOARD_SIZE : Z.
Variable SHIP_TYPES : list (string * Z).

(** The [while True] loop of [deploy_all_ships] for one ship, one attempt
    per round; [None] when the attempts run out before one is accepted (the
    loop is still asking) or when [deploy_ship] raises. *)
Fixpoint place_ship (attempts : list Attempt) (sm : ShipManager)
  (ship : string) (length : Z) : option (ShipManager * list Attempt) :=
  match attempts with
  | [] => None
  | (row, column, orientation) :: rest =>
      if validate_placement BOARD_SIZE length row column orientation then
        if negb (check_overlap (grid sm) row column orientation length) then
          sm' ← deploy_ship sm ship length row column orientation;
          Some (sm', rest)
        else place_ship rest sm ship length
      else place_ship rest sm ship length
  end.

(** [GameSetup.deploy_all_ships], without the printing. *)
Definition deploy_all_ships (attempts : list Attempt) (player : BasePlayer)
  : option (BasePlayer * list Attempt) :=
  '(sm, rest) ← Py.for_each SHIP_TYPES
     (fun '(ship, length) '(sm, attempts) =>
        place_ship attempts sm ship length)
     (ship_manager player, attempts);
  Some (set_ship_manager player sm, rest).

End Setup.

Definition set_attack_board_grid (p : BasePlayer) (g : Grid) : BasePlayer :=
  mkBasePlayer (name p) (ship_manager p)
    (mkShipManager g (ship_locations (attack_board p))
       (opponent (attack_board p))).

(** [HumanPlayer.take_turn] on the positions its input loop produces, one
    per call (the loop only lets a coordinate of the board through).  A
    position already attacked makes the method call itself again, one
    stack frame deeper: [depth] is the number of nested calls the
    interpreter still allows, and a call beyond it raises
    [RecursionError].  [None] on an exception, or when the positions run
    out (the method is still asking). *)
Fixpoint HumanPlayer_take_turn (depth : nat) (positions : list Coord)
  (self opponent : BasePlayer)
  : option (BasePlayer * BasePlayer * list Coord) :=
  match depth with
  | O => None                                         (* RecursionError *)
  | S depth' =>
      match positions with
      | [] => None
      | (row, column) :: rest =>
          mine ← Py.getitem2 (grid (attack_board self)) row column;
          if attacked mine then
            HumanPlayer_take_turn depth' rest self opponent
          else
            theirs ← Py.getitem2 (grid (ship_manager opponent)) row column;
            if String.eqb theirs "X" then
              g ← Py.setitem2 (grid (attack_board self)) row column "X";
              Some (set_attack_board_grid self g,
                    set_ship_manager opponent
                      (check_sunk_ship (ship_manager opponent) row column),
                    rest)
            else
              g ← Py.setitem2 (grid (attack_board self)) row column "-";
              Some (set_attack_board_grid self g, opponent, rest)
      end
  end.

(** ** More vocabulary *)

(** Whether a grid shows a ship at a coordinate. *)
Definition ship_at (g : Grid) (p : Coord) : bool :=
  match Py.getitem2 g p.1 p.2 with
  | Some cell => String.eqb cell "X"
  | None => false
  end.

(** The positions a fleet has left, all ships together. *)
Fixpoint remaining_positions (sl : Fleet) : nat :=
  match sl with
  | [] => O
  | (_, ps) :: rest => (length ps + remaining_positions rest)%nat
  end.

(** The positions of a run recorded one after the other, as the loops of
    [deploy_ship] do. *)
Definition record_run (ship : string) (cells : list Coord) (sl : Fleet) : Fleet :=
  fold_left (fun sl p => setdefault_append ship p sl) cells sl.

(** Hits registered one after the other. *)
Definition hit_all (sm : ShipManager) (cells : list Coord) : ShipManager :=
  fold_left (fun sm p => check_sunk_ship sm p.1 p.2) cells sm.

(** A fleet that agrees with its grid: no coordinate is held by two ships,
    and every coordinate a ship holds is a ship cell of the board. *)
Definition fleet_ok (n : nat) (sm : ShipManager) : Prop :=
  shape n (grid sm) ∧
  (∀ p, ships_holding p (ship_locations sm) <= 1)%nat ∧
  (∀ p, (1 <= ships_holding p (ship_locations sm))%nat →
        on_board (Z.of_nat n) p = true ∧ ship_at (grid sm) p = true).

(** A computer player whose boards are square and whose queued targets are
    on the board. *)
Definition wf_computer (n : nat) (self : ComputerPlayer) : Prop :=
  shape n (attack_grid self) ∧
  shape n (probability_map self) ∧
  Forall (fun p => on_board (Z.of_nat n) p = true) (hit_stack self).

(** An attempt whose origin is on the board. *)
Definition attempt_on_board (n : Z) (a : Attempt) : Prop :=
  0 <= a.1.1 < n ∧ 0 <= a.1.2 < n.

(** Draws for a setup on the 8 by 8 board: the first one for the Carrier
    leaves the board, the first one for the Battleship crosses the Carrier,
    and one draw is left over. *)
Definition setup_attempts : list Attempt :=
  [(0, 6, "H"); (3, 1, "H"); (3, 0, "H"); (0, 0, "H"); (5, 0, "H");
   (6, 4, "H"); (7, 0, "H"); (1, 1, "V")].

(** An attack board that agrees with the grid it was played against: a hit
    mark only on a ship cell, a miss mark only on a cell without ship. *)
Definition truthful (n : nat) (ag og : Grid) : Prop :=
  ∀ r c, 0 <= r < Z.of_nat n → 0 <= c < Z.of_nat n →
    (Py.getitem2 ag r c = Some "X" → ship_at og (r, c) = true) ∧
    (Py.getitem2 ag r c = Some "-" → ship_at og (r, c) = false).
(** * Properties *)

(** ** Python indexing *)

Lemma norm_index_nonneg n i :
  0 <= i < Z.of_nat n → Py.norm_index n i = Some (Z.to_nat i).
Proof.
  intros H. unfold Py.norm_index.
  destruct (0 <=? i) eqn:E1; [|lia].
  destruct (i <? Z.of_nat n) eqn:E2; [done|lia].
Qed.

Lemma norm_index_wrap n i :
  - Z.of_nat n <= i < 0 → Py.norm_index n i = Some (Z.to_nat (i + Z.of_nat n)).
Proof.
  intros H. unfold Py.norm_index.
  destruct (0 <=? i) eqn:E1; [lia|]. simpl.
  destruct (- Z.of_nat n <=? i) eqn:E2; [|lia].
  destruct (i <? 0) eqn:E3; [done|lia].
Qed.

Lemma norm_index_outside n i :
  ¬ (- Z.of_nat n <= i < Z.of_nat n) → Py.norm_index n i = None.
Proof.
  intros H. unfold Py.norm_index.
  destruct (0 <=? i) eqn:E1, (i <? Z.of_nat n) eqn:E2,
    (- Z.of_nat n <=? i) eqn:E3, (i <? 0) eqn:E4; simpl; try done; lia.
Qed.

Lemma getitem_nonneg {A} (l : list A) i :
  0 <= i < Z.of_nat (length l) → Py.getitem l i = l !! Z.to_nat i.
Proof. intros H. unfold Py.getitem. by rewrite norm_index_nonneg. Qed.

Lemma getitem_outside {A} (l : list A) i :
  ¬ (- Z.of_nat (length l) <= i < Z.of_nat (length l)) → Py.getitem l i = None.
Proof. intros H. unfold Py.getitem. by rewrite norm_index_outside. Qed.

Lemma setitem_nonneg {A} (l : list A) i x :
  0 <= i < Z.of_nat (length l) → Py.setitem l i x = Some (<[Z.to_nat i:=x]> l).
Proof. intros H. unfold Py.setitem. by rewrite norm_index_nonneg. Qed.

Lemma shape_row {A} n (m : list (list A)) k r :
  shape n m → m !! k = Some r → length r = n.
Proof.
  intros [_ Hall] Hk. rewrite Forall_forall in Hall.
  apply Hall. eapply list_elem_of_lookup_2; eauto.
Qed.

Lemma getitem2_nonneg {A} n (m : list (list A)) r c :
  shape n m → 0 <= r < Z.of_nat n → 0 <= c < Z.of_nat n →
  Py.getitem2 m r c = (m !! Z.to_nat r) ≫= (fun row => row !! Z.to_nat c).
Proof.
  intros Hs Hr Hc. unfold Py.getitem2.
  rewrite getitem_nonneg; [|destruct Hs as [-> _]; lia].
  destruct (m !! Z.to_nat r) as [row|] eqn:E; simpl; [|done].
  rewrite getitem_nonneg; [done|].
  rewrite (shape_row _ _ _ _ Hs E). lia.
Qed.

Lemma getitem2_is_Some {A} n (m : list (list A)) r c :
  shape n m → 0 <= r < Z.of_nat n → 0 <= c < Z.of_nat n →
  is_Some (Py.getitem2 m r c).
Proof.
  intros Hs Hr Hc. rewrite (getitem2_nonneg n) by done.
  destruct (lookup_lt_is_Some_2 m (Z.to_nat r)) as [row E];
    [destruct Hs as [-> _]; lia|].
  rewrite E. simpl. apply lookup_lt_is_Some_2.
  rewrite (shape_row _ _ _ _ Hs E). lia.
Qed.

Lemma setitem2_nonneg {A} n (m : list (list A)) r c v :
  shape n m → 0 <= r < Z.of_nat n → 0 <= c < Z.of_nat n →
  ∃ m', Py.setitem2 m r c v = Some m' ∧ shape n m' ∧
    ∀ r' c', 0 <= r' < Z.of_nat n → 0 <= c' < Z.of_nat n →
      Py.getitem2 m' r' c' =
        if (r' =? r) && (c' =? c) then Some v else Py.getitem2 m r' c'.
Proof.
  intros Hs Hr Hc.
  destruct (lookup_lt_is_Some_2 m (Z.to_nat r)) as [row E];
    [destruct Hs as [-> _]; lia|].
  pose proof (shape_row _ _ _ _ Hs E) as Hrow.
  exists (<[Z.to_nat r := <[Z.to_nat c := v]> row]> m).
  assert (Hs' : shape n (<[Z.to_nat r := <[Z.to_nat c := v]> row]> m)).
  { destruct Hs as [Hl Hall]. split; [by rewrite length_insert|].
    apply Forall_insert; [done|]. by rewrite length_insert. }
  split; [|split; [done|]].
  - unfold Py.setitem2. rewrite getitem_nonneg; [|destruct Hs as [-> _]; lia].
    rewrite E. simpl. rewrite setitem_nonneg by lia. simpl.
    rewrite setitem_nonneg; [done|destruct Hs as [-> _]; lia].
  - intros r' c' Hr' Hc'.
    rewrite (getitem2_nonneg n) by done.
    rewrite (getitem2_nonneg n m) by done.
    destruct (r' =? r) eqn:Er; simpl.
    + apply Z.eqb_eq in Er. subst r'.
      rewrite list_lookup_insert_eq; [|destruct Hs as [-> _]; lia]. simpl.
      rewrite E. simpl.
      destruct (c' =? c) eqn:Ec.
      * apply Z.eqb_eq in Ec. subst c'.
        rewrite list_lookup_insert_eq; [done|lia].
      * apply Z.eqb_neq in Ec.
        rewrite list_lookup_insert_ne; [done|lia].
    + apply Z.eqb_neq in Er.
      rewrite list_lookup_insert_ne; [done|lia].
Qed.

(** ** Loops *)

Lemma for_range_inv {St} (I : Z → St → Prop) body start n (s : St) :
  I start s →
  (∀ i s, start <= i < start + Z.of_nat n → I i s →
     ∃ s', body i s = Some s' ∧ I (i + 1) s') →
  ∃ s', Py.for_range start n body s = Some s' ∧ I (start + Z.of_nat n) s'.
Proof.
  revert start s. induction n as [|n IH]; intros start s H0 Hstep.
  - exists s. split; [done|]. by replace (start + Z.of_nat 0) with start by lia.
  - destruct (Hstep start s) as (s1 & E1 & H1); [lia|done|].
    destruct (IH (start + 1) s1) as (s2 & E2 & H2); [done| |].
    + intros i s' Hi. apply Hstep. lia.
    + exists s2. simpl. rewrite E1. simpl. split; [done|].
      by replace (start + Z.of_nat (S n)) with (start + 1 + Z.of_nat n) by lia.
Qed.

Lemma for_each_inv {A St} (I : list A → St → Prop) body (l : list A) (s : St) :
  I [] s →
  (∀ pre x s, I pre s → ∃ s', body x s = Some s' ∧ I (pre ++ [x]) s') →
  ∃ s', Py.for_each l body s = Some s' ∧ I l s'.
Proof.
  intros H0 Hstep.
  cut (∀ pre s, I pre s → ∃ s', Py.for_each l body s = Some s' ∧ I (pre ++ l) s').
  { intros H. apply (H [] s H0). }
  induction l as [|x l IH]; intros pre s1 H1.
  - exists s1. by rewrite app_nil_r.
  - destruct (Hstep pre x s1 H1) as (s2 & E2 & H2).
    destruct (IH (pre ++ [x]) s2 H2) as (s3 & E3 & H3).
    exists s3. simpl. rewrite E2. simpl. split; [done|].
    by rewrite <- app_assoc in H3.
Qed.

(** An [any] over a range in which some element raises either answers true
    before reaching it or raises. *)
Lemma any_range_raises start n f k :
  (k < n)%nat → f (start + Z.of_nat k) = None →
  Py.any_range start n f = None ∨ Py.any_range start n f = Some true.
Proof.
  revert start k. induction n as [|n IH]; intros start k Hk Hf; [lia|].
  simpl. destruct (f start) as [[|]|] eqn:E; simpl; [by right| |by left].
  destruct k as [|k].
  - replace (start + Z.of_nat 0) with start in Hf by lia. congruence.
  - apply (IH (start + 1) k); [lia|].
    by replace (start + 1 + Z.of_nat k) with (start + Z.of_nat (S k)) by lia.
Qed.

Lemma for_range_preserves {St} (P : St → Prop) body start n (s s' : St) :
  P s →
  (∀ i s s', body i s = Some s' → P s → P s') →
  Py.for_range start n body s = Some s' → P s'.
Proof.
  intros H0 Hstep. revert start s H0.
  induction n as [|n IH]; intros start s H0 E; simpl in E.
  - by inversion E; subst.
  - destruct (body start s) as [s1|] eqn:E1; [|done]. simpl in E.
    eapply IH; [|exact E]. eauto.
Qed.

(** ** BoardValidator.check_overlap *)

Lemma getitem_elem_of {A} (l : list A) i x : Py.getitem l i = Some x → x ∈ l.
Proof.
  unfold Py.getitem. destruct (Py.norm_index (length l) i) as [k|]; [|done].
  simpl. intros E. eapply list_elem_of_lookup_2; eauto.
Qed.

Lemma getitem2_not_indexable {A} n (m : list (list A)) r c :
  shape n m → indexable (Z.of_nat n) (r, c) = false → Py.getitem2 m r c = None.
Proof.
  intros Hs Hi. unfold Py.getitem2.
  destruct (Py.getitem m r) as [row|] eqn:E; [|done]. simpl.
  assert (Hlen : length row = n).
  { destruct Hs as [_ Hall]. rewrite Forall_forall in Hall.
    apply Hall. by eapply getitem_elem_of. }
  apply getitem_outside. rewrite Hlen. intros Hc.
  destruct (decide (- Z.of_nat n <= r < Z.of_nat n)) as [Hr|Hr].
  - unfold indexable in Hi. simpl in Hi.
    destruct (- Z.of_nat n <=? r) eqn:E1, (r <? Z.of_nat n) eqn:E2,
      (- Z.of_nat n <=? c) eqn:E3, (c <? Z.of_nat n) eqn:E4;
      simpl in Hi; try done; lia.
  - rewrite getitem_outside in E; [done|]. by destruct Hs as [-> _].
Qed.

(** C4, as amended: on an [n] by [n] grid, a placement one of whose cells
    has an index outside [[-n, n)] is answered [true] by [check_overlap]
    (the result is a boolean, so there is no exception to escape).  This
    covers every run that starts on the board and leaves it; an index in
    [[-n, 0)] is read by Python from the other end of the list instead. *)
Theorem check_overlap_off_grid n (g : Grid) row column orientation length p :
  shape n g →
  p ∈ run_cells row column orientation length →
  indexable (Z.of_nat n) p = false →
  check_overlap g row column orientation length = true.
Proof.
  intros Hs Hp Hi. unfold check_overlap, run_cells in *.
  destruct (String.eqb orientation "H").
  - apply list_elem_of_fmap in Hp as (k & -> & Hk).
    apply elem_of_seq in Hk.
    destruct (any_range_raises column (Z.to_nat length)
      (fun i => cell ← Py.getitem2 g row i; Some (String.eqb cell "X")) k)
      as [-> | ->]; try done; [lia|].
    by rewrite (getitem2_not_indexable n).
  - apply list_elem_of_fmap in Hp as (k & -> & Hk).
    apply elem_of_seq in Hk.
    destruct (any_range_raises row (Z.to_nat length)
      (fun i => cell ← Py.getitem2 g i column; Some (String.eqb cell "X")) k)
      as [-> | ->]; try done; [lia|].
    by rewrite (getitem2_not_indexable n).
Qed.

Lemma shape_new_grid n : shape (Z.to_nat n) (new_grid n).
Proof.
  unfold new_grid. split; [by rewrite length_replicate|].
  apply Forall_replicate. by rewrite length_replicate.
Qed.

(** A horizontal ship of length 3 at column 6 of the empty board. *)
Lemma check_overlap_off_grid_witness :
  check_overlap (new_grid 8) 0 6 "H" 3 = true.
Proof.
  apply (check_overlap_off_grid 8 (new_grid 8) 0 6 "H" 3 (0, 8)).
  - apply (shape_new_grid 8).
  - cbn. repeat constructor.
  - reflexivity.
Defined.

(** C4, as stated, fails: a run of two cells starting at column -1 leaves
    the board, and on the empty board the answer is [false]: Python reads
    column -1 as the last column. *)
Lemma check_overlap_negative_start :
  existsb (fun p => negb (on_board 8 p)) (run_cells 0 (-1) "H" 2) = true ∧
  check_overlap (new_grid 8) 0 (-1) "H" 2 = false.
Proof. split; reflexivity. Qed.

(** ** ShipManager: the fleet *)

Lemma setdefault_append_no_empty ship p sl :
  no_empty_entry sl → no_empty_entry (setdefault_append ship p sl).
Proof.
  unfold no_empty_entry. induction sl as [|[k ps] rest IH]; intros H; simpl.
  - repeat constructor. done.
  - inversion H as [|? ? Hps Hrest]; subst.
    destruct (String.eqb k ship).
    + constructor; [|done]. simpl. by destruct ps.
    + constructor; [done|]. by apply IH.
Qed.

Lemma check_sunk_items_no_empty row column sl :
  no_empty_entry sl → no_empty_entry (check_sunk_items row column sl).
Proof.
  unfold no_empty_entry. induction sl as [|[k ps] rest IH]; intros H; simpl.
  - constructor.
  - inversion H as [|? ? Hps Hrest]; subst.
    destruct (Py.contains coord_eqb (row, column) ps).
    + destruct (Py.remove_first coord_eqb (row, column) ps) eqn:E; [done|].
      constructor; [done|]. by apply IH.
    + constructor; [done|]. by apply IH.
Qed.

Lemma deploy_ship_no_empty sm ship length row column orientation sm' :
  deploy_ship sm ship length row column orientation = Some sm' →
  no_empty_entry (ship_locations sm) → no_empty_entry (ship_locations sm').
Proof.
  unfold deploy_ship. intros E H.
  destruct (String.eqb orientation "H");
    (eapply (for_range_preserves (fun s => no_empty_entry (ship_locations s)));
     [exact H| |exact E]);
    intros i s s' Es Hs; cbv beta in Es;
    match type of Es with
    | context [Py.setitem2 ?g ?r ?c ?v] =>
        destruct (Py.setitem2 g r c v); [|done]
    end;
    simpl in Es; inversion Es; subst; simpl;
    by apply setdefault_append_no_empty.
Qed.

Lemma fleet_state_no_empty n sm :
  fleet_state n sm → no_empty_entry (ship_locations sm).
Proof.
  induction 1; simpl.
  - constructor.
  - by eapply deploy_ship_no_empty.
  - by apply check_sunk_items_no_empty.
  - done.
Qed.

(** C5: in every state of a [ShipManager], [all_ships_sunk] answers true
    exactly when [ship_locations] is empty. *)
Theorem all_ships_sunk_iff_empty n sm :
  fleet_state n sm →
  (all_ships_sunk sm = true ↔ ship_locations sm = []).
Proof.
  intros H. apply fleet_state_no_empty in H. unfold all_ships_sunk.
  destruct (ship_locations sm) as [|[k ps] rest]; simpl; [done|].
  split; [|done].
  inversion H as [|? ? Hps _]; subst. simpl in Hps. by destruct ps.
Qed.

(** The fleet of the unit test: a Destroyer deployed at the top left corner,
    hit once. *)
Lemma all_ships_sunk_iff_empty_witness :
  ∃ sm, deploy_ship (new_ShipManager 8 "Player") "Destroyer" 2 0 0 "H" = Some sm ∧
    (all_ships_sunk (check_sunk_ship sm 0 0) = true ↔
     ship_locations (check_sunk_ship sm 0 0) = []).
Proof.
  eexists. split; [reflexivity|].
  apply (all_ships_sunk_iff_empty 8).
  apply fleet_hit.
  apply (fleet_deploy 8 (new_ShipManager 8 "Player") "Destroyer" 2 0 0 "H");
    [apply fleet_init|reflexivity].
Defined.

Lemma check_sunk_items_absent row column sl :
  ships_holding (row, column) sl = O → check_sunk_items row column sl = sl.
Proof.
  induction sl as [|[k ps] rest IH]; simpl; [done|].
  destruct (Py.contains coord_eqb (row, column) ps); [done|].
  intros H. by rewrite IH.
Qed.

Lemma check_sunk_first_match_absent row column sl :
  ships_holding (row, column) sl = O → check_sunk_first_match row column sl = sl.
Proof.
  induction sl as [|[k ps] rest IH]; simpl; [done|].
  destruct (Py.contains coord_eqb (row, column) ps); [done|].
  intros H. by rewrite IH.
Qed.

(** C10, as amended: a coordinate that no ship holds leaves
    [ship_locations] as it is; a coordinate that exactly one ship holds is
    removed from that ship, whose entry is deleted exactly when nothing is
    left of it, and no other entry changes. *)
Theorem check_sunk_ship_one_holder sm row column :
  (ships_holding (row, column) (ship_locations sm) <= 1)%nat →
  ship_locations (check_sunk_ship sm row column) =
    check_sunk_first_match row column (ship_locations sm) ∧
  (ships_holding (row, column) (ship_locations sm) = O →
   ship_locations (check_sunk_ship sm row column) = ship_locations sm) ∧
  grid (check_sunk_ship sm row column) = grid sm.
Proof.
  intros H. split; [|split; [|done]].
  - simpl. induction (ship_locations sm) as [|[k ps] rest IH]; simpl in *; [done|].
    destruct (Py.contains coord_eqb (row, column) ps).
    + assert (H0 : ships_holding (row, column) rest = O) by lia.
      destruct (Py.remove_first coord_eqb (row, column) ps); [done|].
      by rewrite check_sunk_items_absent.
    + by rewrite IH.
  - simpl. apply check_sunk_items_absent.
Qed.

(** The Destroyer of the unit test, hit at its second cell. *)
Lemma check_sunk_ship_one_holder_witness :
  let sm := mkShipManager (new_grid 8)
              [("Destroyer", [(0, 0); (0, 1)]); ("Cruiser", [(2, 0)])] "Player" in
  ship_locations (check_sunk_ship sm 0 1) =
    [("Destroyer", [(0, 0)]); ("Cruiser", [(2, 0)])].
Proof.
  intros sm.
  destruct (check_sunk_ship_one_holder sm 0 1) as [E _]; [cbn; lia|].
  rewrite E. reflexivity.
Defined.

(** C10, as stated, fails when two ships hold the coordinate: the loop goes
    on after a ship that is hit and not sunk, and the coordinate is removed
    from the second ship as well. *)
Lemma check_sunk_ship_two_holders :
  let sl := [("A", [(0, 0); (0, 1)]); ("B", [(0, 0); (1, 0)])] in
  check_sunk_first_match 0 0 sl = [("A", [(0, 1)]); ("B", [(0, 0); (1, 0)])] ∧
  check_sunk_items 0 0 sl = [("A", [(0, 1)]); ("B", [(1, 0)])].
Proof. split; reflexivity. Qed.

Lemma positions_of_setdefault_append ship p sl :
  positions_of ship (setdefault_append ship p sl) = positions_of ship sl ++ [p].
Proof.
  unfold positions_of. induction sl as [|[k ps] rest IH]; simpl.
  - by rewrite String.eqb_refl.
  - destruct (String.eqb k ship) eqn:E; simpl; by rewrite E.
Qed.

Lemma fleet_get_setdefault_append_ne ship other p sl :
  other ≠ ship →
  fleet_get other (setdefault_append ship p sl) = fleet_get other sl.
Proof.
  intros Hne. induction sl as [|[k ps] rest IH]; simpl.
  - destruct (String.eqb ship other) eqn:E; [|done].
    apply String.eqb_eq in E. congruence.
  - destruct (String.eqb k ship) eqn:E; simpl.
    + apply String.eqb_eq in E. subst k.
      destruct (String.eqb ship other) eqn:E'; [|done].
      apply String.eqb_eq in E'. congruence.
    + by rewrite IH.
Qed.

Lemma seq_snoc_0 k : seq 0 (S k) = seq 0 k ++ [k].
Proof. by rewrite seq_S. Qed.

(** C9: a horizontal placement that lies on the board succeeds; afterwards
    the cells of the run hold the ship mark and every other cell of the grid
    is as before, and the run, in order, has been appended to the ship's
    positions (the other ships keep theirs). *)
Theorem deploy_ship_horizontal n sm ship length row column :
  shape n (grid sm) →
  0 <= row < Z.of_nat n → 0 <= column → column + length <= Z.of_nat n →
  ∃ sm', deploy_ship sm ship length row column "H" = Some sm' ∧
    shape n (grid sm') ∧
    (∀ r c, 0 <= r < Z.of_nat n → 0 <= c < Z.of_nat n →
       Py.getitem2 (grid sm') r c =
         if (r =? row) && (column <=? c) && (c <? column + length)
         then Some "X" else Py.getitem2 (grid sm) r c) ∧
    positions_of ship (ship_locations sm') =
      positions_of ship (ship_locations sm) ++ run_cells row column "H" length ∧
    (∀ other, other ≠ ship →
       fleet_get other (ship_locations sm') = fleet_get other (ship_locations sm)) ∧
    opponent sm' = opponent sm.
Proof.
  intros Hs Hrow Hcol Hfit. unfold deploy_ship, run_cells. simpl.
  set (body := fun (i : Z) (sm : ShipManager) =>
    g ← Py.setitem2 (grid sm) row i "X";
    Some (mkShipManager g
            (setdefault_append ship (row, i) (ship_locations sm))
            (opponent sm))).
  pose (I := fun (i : Z) (s : ShipManager) =>
    shape n (grid s) ∧
    (∀ r c, 0 <= r < Z.of_nat n → 0 <= c < Z.of_nat n →
       Py.getitem2 (grid s) r c =
         if (r =? row) && (column <=? c) && (c <? i)
         then Some "X" else Py.getitem2 (grid sm) r c) ∧
    positions_of ship (ship_locations s) =
      positions_of ship (ship_locations sm) ++
      map (fun k => (row, column + Z.of_nat k)) (seq 0 (Z.to_nat (i - column))) ∧
    (∀ other, other ≠ ship →
       fleet_get other (ship_locations s) = fleet_get other (ship_locations sm)) ∧
    opponent s = opponent sm).
  destruct (for_range_inv I body column (Z.to_nat length) sm) as (sm' & E & HI).
  - unfold I. split; [done|]. split.
    + intros r c Hr Hc.
      destruct (r =? row), (Z.leb_spec column c), (Z.ltb_spec c column);
        simpl; try done; lia.
    + replace (column - column) with 0 by lia. simpl.
      by rewrite app_nil_r.
  - intros i s Hi (Hsh & Hg & Hp & Ho & Hopp).
    destruct (setitem2_nonneg n (grid s) row i "X") as (g' & Eg & Hsh' & Hg');
      [done|done|lia|].
    exists (mkShipManager g'
              (setdefault_append ship (row, i) (ship_locations s)) (opponent s)).
    split; [unfold body; by rewrite Eg|].
    unfold I. simpl. split; [done|]. split; [|split; [|split; [|done]]].
    + intros r c Hr Hc. rewrite Hg' by done. rewrite Hg by done.
      destruct (Z.eqb_spec r row), (Z.eqb_spec c i), (Z.leb_spec column c),
        (Z.ltb_spec c i), (Z.ltb_spec c (i + 1)); simpl; try done; lia.
    + rewrite positions_of_setdefault_append, Hp.
      replace (Z.to_nat (i + 1 - column)) with (S (Z.to_nat (i - column))) by lia.
      rewrite seq_snoc_0, map_app, app_assoc. simpl.
      by replace (column + Z.of_nat (Z.to_nat (i - column))) with i by lia.
    + intros other Hne. rewrite fleet_get_setdefault_append_ne by done.
      by apply Ho.
  - exists sm'. split; [exact E|].
    destruct HI as (Hsh & Hg & Hp & Ho & Hopp).
    split; [done|]. split; [|split; [|done]].
    + intros r c Hr Hc. rewrite Hg by done.
      destruct (r =? row), (Z.leb_spec column c),
        (Z.ltb_spec c (column + length)),
        (Z.ltb_spec c (column + Z.of_nat (Z.to_nat length)));
        simpl; try done; lia.
    + rewrite Hp. do 3 f_equal. lia.
Qed.

(** The deployment of the unit test: a Destroyer of length 2 at the top left
    corner of the empty board. *)
Lemma deploy_ship_horizontal_witness :
  ∃ sm', deploy_ship (new_ShipManager 8 "Player") "Destroyer" 2 0 0 "H" = Some sm' ∧
    Py.getitem2 (grid sm') 0 1 = Some "X" ∧
    Py.getitem2 (grid sm') 0 2 = Some " " ∧
    positions_of "Destroyer" (ship_locations sm') = [(0, 0); (0, 1)].
Proof.
  destruct (deploy_ship_horizontal 8 (new_ShipManager 8 "Player")
              "Destroyer" 2 0 0) as (sm' & E & _ & Hg & Hp & _).
  - apply (shape_new_grid 8).
  - lia.
  - lia.
  - lia.
  - exists sm'. split; [exact E|].
    split; [by rewrite Hg by lia|].
    split; [by rewrite Hg by lia|].
    by rewrite Hp.
Defined.

(** ** Sums and accumulation in the probability map *)

Lemma sum_range_ext start k f g :
  (∀ i, start <= i < start + Z.of_nat k → f i = g i) →
  sum_range start k f = sum_range start k g.
Proof.
  revert start. induction k as [|k IH]; intros start H; simpl; [done|].
  rewrite H by lia. f_equal. apply IH. intros i Hi. apply H. lia.
Qed.

Lemma sum_range_nonneg start k f :
  (∀ i, start <= i < start + Z.of_nat k → 0 <= f i) → 0 <= sum_range start k f.
Proof.
  revert start. induction k as [|k IH]; intros start H; simpl; [lia|].
  specialize (H start) as H0. specialize (IH (start + 1)).
  assert (0 <= sum_range (start + 1) k f) by (apply IH; intros; apply H; lia).
  lia.
Qed.

Lemma sum_range_zero start k f :
  (∀ i, start <= i < start + Z.of_nat k → f i = 0) → sum_range start k f = 0.
Proof.
  revert start. induction k as [|k IH]; intros start H; simpl; [done|].
  rewrite H by lia. rewrite IH; [done|]. intros i Hi. apply H. lia.
Qed.

(** A sum in which one index at most contributes. *)
Lemma sum_range_single start k x (v : Z → Z) :
  sum_range start k (fun i => if i =? x then v i else 0) =
  if (start <=? x) && (x <? start + Z.of_nat k) then v x else 0.
Proof.
  revert start. induction k as [|k IH]; intros start; cbn [sum_range].
  - destruct (Z.leb_spec start x), (Z.ltb_spec x (start + Z.of_nat 0));
      simpl; try done; lia.
  - rewrite IH.
    destruct (Z.eqb_spec start x), (Z.leb_spec start x),
      (Z.leb_spec (start + 1) x), (Z.ltb_spec x (start + 1 + Z.of_nat k)),
      (Z.ltb_spec x (start + Z.of_nat (S k))); simpl; subst;
      try done; lia.
Qed.

Lemma sum_list_nonneg {A} (f : A → Z) l :
  (∀ x, 0 <= f x) → 0 <= sum_list f l.
Proof. intros H. induction l as [|x l IH]; simpl; [lia|]. specialize (H x). lia. Qed.

Lemma sum_list_ext {A} (f g : A → Z) l :
  (∀ x, f x = g x) → sum_list f l = sum_list g l.
Proof. intros H. induction l as [|x l IH]; simpl; [done|]. by rewrite H, IH. Qed.

Lemma sum_list_app {A} (f : A → Z) l1 l2 :
  sum_list f (l1 ++ l2) = sum_list f l1 + sum_list f l2.
Proof. induction l1 as [|x l1 IH]; simpl; lia. Qed.

Section Accumulate.

Variable n : nat.

Lemma adds_refl pm : shape n pm → adds n (fun _ _ => 0) pm pm.
Proof.
  intros Hs. split; [done|]. intros r c Hr Hc.
  destruct (getitem2_is_Some n pm r c) as [w ->]; try done.
  simpl. f_equal. lia.
Qed.

Lemma adds_trans d1 d2 pm pm1 pm2 :
  adds n d1 pm pm1 → adds n d2 pm1 pm2 →
  adds n (fun r c => d1 r c + d2 r c) pm pm2.
Proof.
  intros [Hs1 H1] [Hs2 H2]. split; [done|]. intros r c Hr Hc.
  rewrite H2, H1 by done. destruct (Py.getitem2 pm r c); simpl; [|done].
  f_equal. lia.
Qed.

Lemma adds_ext d d' pm pm' :
  (∀ r c, 0 <= r < Z.of_nat n → 0 <= c < Z.of_nat n → d r c = d' r c) →
  adds n d pm pm' → adds n d' pm pm'.
Proof.
  intros Hd [Hs H]. split; [done|]. intros r c Hr Hc.
  rewrite H by done. by rewrite Hd.
Qed.

Lemma adds_shape d pm pm' : adds n d pm pm' → shape n pm'.
Proof. by intros [? _]. Qed.

Lemma for_range_adds (d : Z → Z → Z → Z) body start k pm :
  shape n pm →
  (∀ i pm, start <= i < start + Z.of_nat k → shape n pm →
     ∃ pm', body i pm = Some pm' ∧ adds n (d i) pm pm') →
  ∃ pm', Py.for_range start k body pm = Some pm' ∧
    adds n (fun r c => sum_range start k (fun i => d i r c)) pm pm'.
Proof.
  revert start pm. induction k as [|k IH]; intros start pm Hs Hstep; simpl.
  - exists pm. split; [done|]. by apply adds_refl.
  - destruct (Hstep start pm) as (pm1 & E1 & H1); [lia|done|].
    destruct (IH (start + 1) pm1) as (pm2 & E2 & H2).
    + by eapply adds_shape.
    + intros i pm' Hi. apply Hstep. lia.
    + exists pm2. rewrite E1. simpl. split; [done|].
      eapply adds_trans; eauto.
Qed.

Lemma for_each_adds {A} (d : A → Z → Z → Z) body (l : list A) pm :
  shape n pm →
  (∀ x pm, shape n pm → ∃ pm', body x pm = Some pm' ∧ adds n (d x) pm pm') →
  ∃ pm', Py.for_each l body pm = Some pm' ∧
    adds n (fun r c => sum_list (fun x => d x r c) l) pm pm'.
Proof.
  revert pm. induction l as [|x l IH]; intros pm Hs Hstep; simpl.
  - exists pm. split; [done|]. by apply adds_refl.
  - destruct (Hstep x pm Hs) as (pm1 & E1 & H1).
    destruct (IH pm1) as (pm2 & E2 & H2); [by eapply adds_shape|done|].
    exists pm2. rewrite E1. simpl. split; [done|].
    eapply adds_trans; eauto.
Qed.

Lemma incr_cell_adds pm r0 c0 :
  shape n pm → 0 <= r0 < Z.of_nat n → 0 <= c0 < Z.of_nat n →
  ∃ pm', incr_cell pm r0 c0 = Some pm' ∧
    adds n (fun r c => if (r =? r0) && (c =? c0) then 1 else 0) pm pm'.
Proof.
  intros Hs Hr Hc. unfold incr_cell.
  destruct (getitem2_is_Some n pm r0 c0) as [w Ew]; try done.
  rewrite Ew. simpl.
  destruct (setitem2_nonneg n pm r0 c0 (w + 1)) as (pm' & E & Hs' & Hg); try done.
  exists pm'. split; [done|]. split; [done|].
  intros r c Hr' Hc'. rewrite Hg by done.
  destruct (Z.eqb_spec r r0), (Z.eqb_spec c c0); simpl; subst.
  - by rewrite Ew.
  - destruct (Py.getitem2 pm r0 c); simpl; [f_equal; lia|done].
  - destruct (Py.getitem2 pm r c0); simpl; [f_equal; lia|done].
  - destruct (Py.getitem2 pm r c); simpl; [f_equal; lia|done].
Qed.

End Accumulate.

(** ** can_place_ship *)

Lemma any_range_total_from base s k f (b : Z → bool) :
  (∀ i, base + Z.of_nat s <= i < base + Z.of_nat s + Z.of_nat k →
     f i = Some (b i)) →
  Py.any_range (base + Z.of_nat s) k f =
    Some (existsb (fun j => b (base + Z.of_nat j)) (seq s k)).
Proof.
  revert s. induction k as [|k IH]; intros s H; [done|].
  cbn [Py.any_range seq existsb]. rewrite H by lia. simpl mbind.
  destruct (b (base + Z.of_nat s)); [done|]. simpl orb.
  replace (base + Z.of_nat s + 1) with (base + Z.of_nat (S s)) by lia.
  apply IH. intros i Hi. apply H. lia.
Qed.

Lemma any_range_total start k f (b : Z → bool) :
  (∀ i, start <= i < start + Z.of_nat k → f i = Some (b i)) →
  Py.any_range start k f =
    Some (existsb (fun j => b (start + Z.of_nat j)) (seq 0 k)).
Proof.
  intros H. replace start with (start + Z.of_nat 0) at 1 by lia.
  apply any_range_total_from. intros i Hi. apply H. lia.
Qed.

Lemma negb_existsb_run {A} (P : A → bool) (Q : Coord → bool) (f : A → Coord) l :
  (∀ x, P x = Q (f x)) →
  negb (existsb P l) = forallb (fun p => negb (Q p)) (map f l).
Proof.
  intros H. induction l as [|x l IH]; simpl; [done|].
  rewrite negb_orb, IH, H. done.
Qed.

Lemma cell_attacked_getitem2 (g : Grid) r c cell :
  Py.getitem2 g r c = Some cell → cell_attacked g (r, c) = attacked cell.
Proof. intros E. unfold cell_attacked. simpl. by rewrite E. Qed.

Section ProbabilityMap.

Variable n : nat.
Variable ships : list (string * Z).

Lemma can_place_ship_spec self (opp : BasePlayer) row col length o :
  shape n (attack_grid self) →
  0 <= row < Z.of_nat n → 0 <= col < Z.of_nat n →
  can_place_ship (Z.of_nat n) self opp row col length o =
    Some (placeable (Z.of_nat n) (attack_grid self) row col length o).
Proof.
  intros Hs Hr Hc. unfold can_place_ship, placeable, run_cells.
  destruct (String.eqb o "H").
  - destruct (Z.gtb_spec (col + length) (Z.of_nat n)) as [Hgt|Hle].
    + by destruct (Z.leb_spec (col + length) (Z.of_nat n)); [lia|].
    + destruct (Z.leb_spec (col + length) (Z.of_nat n)); [|lia]. simpl andb.
      rewrite (any_range_total _ _ _
        (fun i => cell_attacked (attack_grid self) (row, col + i))).
      * simpl. f_equal. apply negb_existsb_run. intros j. done.
      * intros i Hi.
        destruct (getitem2_is_Some n (attack_grid self) row (col + i))
          as [cell E]; [done|done|lia|].
        rewrite E. simpl. by rewrite (cell_attacked_getitem2 _ _ _ cell).
  - destruct (Z.gtb_spec (row + length) (Z.of_nat n)) as [Hgt|Hle].
    + by destruct (Z.leb_spec (row + length) (Z.of_nat n)); [lia|].
    + destruct (Z.leb_spec (row + length) (Z.of_nat n)); [|lia]. simpl andb.
      rewrite (any_range_total _ _ _
        (fun i => cell_attacked (attack_grid self) (row + i, col))).
      * simpl. f_equal. apply negb_existsb_run. intros j. done.
      * intros i Hi.
        destruct (getitem2_is_Some n (attack_grid self) (row + i) col)
          as [cell E]; [done|lia|done|].
        rewrite E. simpl. by rewrite (cell_attacked_getitem2 _ _ _ cell).
Qed.

Lemma placeable_fits g row col length o :
  placeable (Z.of_nat n) g row col length o = true →
  if String.eqb o "H" then col + length <= Z.of_nat n
  else row + length <= Z.of_nat n.
Proof.
  unfold placeable. intros H. apply andb_prop in H as [H _].
  destruct (String.eqb o "H"); lia.
Qed.

Lemma placeable_covers_unattacked g row col length o r c :
  placeable (Z.of_nat n) g row col length o = true →
  covers row col length o (r, c) = true →
  cell_attacked g (r, c) = false.
Proof.
  unfold placeable, covers, run_cells. intros H Hc.
  apply andb_prop in H as [_ H]. rewrite forallb_forall in H.
  apply negb_true_iff. apply H. simpl in Hc.
  destruct (String.eqb o "H").
  - destruct (Z.eqb_spec r row), (Z.leb_spec col c),
      (Z.ltb_spec c (col + length)); try done. subst r.
    apply in_map_iff. exists (Z.to_nat (c - col)). split; [f_equal; lia|].
    apply in_seq. lia.
  - destruct (Z.eqb_spec c col), (Z.leb_spec row r),
      (Z.ltb_spec r (row + length)); try done. subst c.
    apply in_map_iff. exists (Z.to_nat (r - row)). split; [f_equal; lia|].
    apply in_seq. lia.
Qed.

(** One placement adds one to each of its cells that is not attacked. *)
Lemma add_run_adds self row col length o pm :
  shape n (attack_grid self) → shape n pm →
  0 <= row → 0 <= col →
  (if String.eqb o "H" then row < Z.of_nat n ∧ col + length <= Z.of_nat n
   else col < Z.of_nat n ∧ row + length <= Z.of_nat n) →
  ∃ pm', add_run self row col length o pm = Some pm' ∧
    adds n (fun r c =>
      if covers row col length o (r, c)
         && negb (cell_attacked (attack_grid self) (r, c))
      then 1 else 0) pm pm'.
Proof.
  intros Hg Hs Hr Hc Hfit. unfold add_run, covers.
  destruct (String.eqb o "H").
  - destruct Hfit as [Hrow Hfit].
    destruct (for_range_adds n
      (fun i r c =>
         if i =? c - col then
           if (r =? row) && negb (cell_attacked (attack_grid self) (row, col + i))
           then 1 else 0
         else 0)
      (fun i pm =>
         cell ← Py.getitem2 (attack_grid self) row (col + i);
         if negb (attacked cell) then incr_cell pm row (col + i) else Some pm)
      0 (Z.to_nat length) pm) as (pm' & E & Ha); [done| |].
    + intros i pm0 Hi Hs0.
      destruct (getitem2_is_Some n (attack_grid self) row (col + i))
        as [cell Ec]; [done|lia|lia|].
      rewrite Ec. simpl mbind.
      rewrite (cell_attacked_getitem2 _ _ _ _ Ec).
      destruct (attacked cell); simpl negb; cbv iota.
      * exists pm0. split; [done|].
        eapply adds_ext; [|by apply adds_refl].
        intros r c _ _. simpl.
        destruct (i =? c - col); [|done]. by rewrite andb_false_r.
      * destruct (incr_cell_adds n pm0 row (col + i)) as (pm1 & E1 & H1);
          [done|lia|lia|].
        exists pm1. split; [done|].
        eapply adds_ext; [|exact H1].
        intros r c _ _. simpl. rewrite andb_true_r.
        destruct (Z.eqb_spec r row), (Z.eqb_spec c (col + i)),
          (Z.eqb_spec i (c - col)); simpl; try done; lia.
    + exists pm'. split; [done|].
      eapply adds_ext; [|exact Ha].
      intros r c Hr' Hc'. simpl. rewrite sum_range_single.
      replace (col + (c - col)) with c by lia.
      destruct (Z.eqb_spec r row) as [->|]; simpl;
        destruct (Z.leb_spec 0 (c - col)), (Z.leb_spec col c),
          (Z.ltb_spec (c - col) (0 + Z.of_nat (Z.to_nat length))),
          (Z.ltb_spec c (col + length)); simpl; try done; lia.
  - destruct Hfit as [Hcol Hfit].
    destruct (for_range_adds n
      (fun i r c =>
         if i =? r - row then
           if (c =? col) && negb (cell_attacked (attack_grid self) (row + i, col))
           then 1 else 0
         else 0)
      (fun i pm =>
         cell ← Py.getitem2 (attack_grid self) (row + i) col;
         if negb (attacked cell) then incr_cell pm (row + i) col else Some pm)
      0 (Z.to_nat length) pm) as (pm' & E & Ha); [done| |].
    + intros i pm0 Hi Hs0.
      destruct (getitem2_is_Some n (attack_grid self) (row + i) col)
        as [cell Ec]; [done|lia|lia|].
      rewrite Ec. simpl mbind.
      rewrite (cell_attacked_getitem2 _ _ _ _ Ec).
      destruct (attacked cell); simpl negb; cbv iota.
      * exists pm0. split; [done|].
        eapply adds_ext; [|by apply adds_refl].
        intros r c _ _. simpl.
        destruct (i =? r - row); [|done]. by rewrite andb_false_r.
      * destruct (incr_cell_adds n pm0 (row + i) col) as (pm1 & E1 & H1);
          [done|lia|lia|].
        exists pm1. split; [done|].
        eapply adds_ext; [|exact H1].
        intros r c _ _. simpl. rewrite andb_true_r.
        destruct (Z.eqb_spec c col), (Z.eqb_spec r (row + i)),
          (Z.eqb_spec i (r - row)); simpl; try done; lia.
    + exists pm'. split; [done|].
      eapply adds_ext; [|exact Ha].
      intros r c Hr' Hc'. simpl. rewrite sum_range_single.
      replace (row + (r - row)) with r by lia.
      destruct (Z.eqb_spec c col) as [->|]; simpl;
        destruct (Z.leb_spec 0 (r - row)), (Z.leb_spec row r),
          (Z.ltb_spec (r - row) (0 + Z.of_nat (Z.to_nat length))),
          (Z.ltb_spec r (row + length)); simpl; try done; lia.
Qed.

Lemma guarded_add_run_adds self row col length o pm :
  shape n (attack_grid self) → shape n pm →
  0 <= row < Z.of_nat n → 0 <= col < Z.of_nat n →
  ∃ pm',
    (if placeable (Z.of_nat n) (attack_grid self) row col length o
     then add_run self row col length o pm else Some pm) = Some pm' ∧
    adds n (fun r c =>
      if placeable (Z.of_nat n) (attack_grid self) row col length o
         && covers row col length o (r, c)
      then 1 else 0) pm pm'.
Proof.
  intros Hg Hs Hr Hc.
  destruct (placeable (Z.of_nat n) (attack_grid self) row col length o) eqn:Ep.
  - destruct (add_run_adds self row col length o pm) as (pm' & E & Ha);
      try done; try lia.
    { apply placeable_fits in Ep. destruct (String.eqb o "H"); lia. }
    exists pm'. split; [done|].
    eapply adds_ext; [|exact Ha].
    intros r c _ _. simpl.
    destruct (covers row col length o (r, c)) eqn:Ec; [|done].
    by rewrite (placeable_covers_unattacked _ _ _ _ _ _ _ Ep Ec).
  - exists pm. split; [done|]. by apply adds_refl.
Qed.

(** The number the loops add to a cell for one ship length. *)
Lemma count_placements_adds self opp pm :
  shape n (attack_grid self) → shape n pm →
  ∃ pm', count_placements (Z.of_nat n) ships self opp pm = Some pm' ∧
    adds n (fun r c =>
      sum_list (fun '(_, length) =>
        placements_through (Z.of_nat n) (attack_grid self) length (r, c)) ships)
      pm pm'.
Proof.
  intros Hg Hs. unfold count_placements.
  destruct (for_each_adds n
    (fun (x : string * Z) r c =>
       placements_through (Z.of_nat n) (attack_grid self) x.2 (r, c))
    (fun '(ship, length) pm =>
       Py.for_range 0 (Z.to_nat (Z.of_nat n)) (fun row pm =>
         Py.for_range 0 (Z.to_nat (Z.of_nat n)) (fun col pm =>
           h ← can_place_ship (Z.of_nat n) self opp row col length "H";
           pm ← (if h : bool then add_run self row col length "H" pm
                 else Some pm);
           v ← can_place_ship (Z.of_nat n) self opp row col length "V";
           if v : bool then add_run self row col length "V" pm
           else Some pm) pm) pm)
    ships pm) as (pm' & E & Ha); [done| |].
  - intros [ship length] pm0 Hs0. unfold placements_through. simpl snd.
    apply (for_range_adds n (fun row r c =>
      sum_range 0 (Z.to_nat (Z.of_nat n)) (fun col =>
        (if placeable (Z.of_nat n) (attack_grid self) row col length "H"
            && covers row col length "H" (r, c) then 1 else 0) +
        (if placeable (Z.of_nat n) (attack_grid self) row col length "V"
            && covers row col length "V" (r, c) then 1 else 0)))); [done|].
    intros row pm1 Hrow Hs1.
    apply (for_range_adds n (fun col r c =>
        (if placeable (Z.of_nat n) (attack_grid self) row col length "H"
            && covers row col length "H" (r, c) then 1 else 0) +
        (if placeable (Z.of_nat n) (attack_grid self) row col length "V"
            && covers row col length "V" (r, c) then 1 else 0))); [done|].
    intros col pm2 Hcol Hs2.
    rewrite !can_place_ship_spec by (done || lia). simpl mbind.
    destruct (guarded_add_run_adds self row col length "H" pm2)
      as (pm3 & E3 & H3); [done|done|lia|lia|].
    rewrite E3. simpl mbind.
    destruct (guarded_add_run_adds self row col length "V" pm3)
      as (pm4 & E4 & H4); [done|by eapply adds_shape|lia|lia|].
    exists pm4. split; [done|].
    eapply adds_trans; eauto.
  - exists pm'. split; [done|].
    eapply adds_ext; [|exact Ha].
    intros r c _ _. simpl.
    apply sum_list_ext. by intros [ship length].
Qed.

Lemma placements_through_attacked g length p :
  cell_attacked g p = true → placements_through (Z.of_nat n) g length p = 0.
Proof.
  intros Ha. destruct p as [r c]. unfold placements_through.
  apply sum_range_zero. intros row _. apply sum_range_zero. intros col _.
  assert (H : ∀ o, placeable (Z.of_nat n) g row col length o
                   && covers row col length o (r, c) = false).
  { intros o. apply not_true_iff_false. intros H.
    apply andb_prop in H as [Hp Hc].
    rewrite (placeable_covers_unattacked _ _ _ _ _ _ _ Hp Hc) in Ha. done. }
  by rewrite !H.
Qed.

Lemma placements_through_nonneg g length p :
  0 <= placements_through (Z.of_nat n) g length p.
Proof.
  unfold placements_through.
  apply sum_range_nonneg. intros row _. apply sum_range_nonneg. intros col _.
  destruct (_ && _), (_ && _); lia.
Qed.

Lemma fill_zero_shape (pm : list (list Z)) :
  shape n pm → shape n ((fun row : list Z => (fun _ => 0) <$> row) <$> pm).
Proof.
  intros [Hl Hall]. split; [by rewrite length_fmap|].
  apply Forall_fmap. eapply Forall_impl; [exact Hall|].
  intros row Hrow. simpl. by rewrite length_fmap.
Qed.

(** The first loop nest writes every cell of the map. *)
Lemma base_weights_spec self pm :
  shape n (attack_grid self) → shape n pm →
  ∃ pm', base_weights (Z.of_nat n) self pm = Some pm' ∧ shape n pm' ∧
    ∀ r c, 0 <= r < Z.of_nat n → 0 <= c < Z.of_nat n →
      Py.getitem2 pm' r c =
        Some (if cell_attacked (attack_grid self) (r, c) then 0 else 1).
Proof.
  intros Hg Hs. unfold base_weights.
  pose (done_to := fun (row col : Z) (pm : list (list Z)) =>
    shape n pm ∧
    ∀ r c, 0 <= r < Z.of_nat n → 0 <= c < Z.of_nat n →
      r < row ∨ (r = row ∧ c < col) →
      Py.getitem2 pm r c =
        Some (if cell_attacked (attack_grid self) (r, c) then 0 else 1)).
  destruct (for_range_inv (fun row pm => done_to row 0 pm)
    (fun row pm =>
       Py.for_range 0 (Z.to_nat (Z.of_nat n)) (fun col pm =>
         cell ← Py.getitem2 (attack_grid self) row col;
         if attacked cell then Py.setitem2 pm row col 0
         else Py.setitem2 pm row col 1) pm)
    0 (Z.to_nat (Z.of_nat n)) pm) as (pm' & E & Hs' & H').
  - split; [done|]. intros r c Hr Hc [?|[? ?]]; lia.
  - intros row pm0 Hrow H0.
    destruct (for_range_inv (fun col pm => done_to row col pm)
      (fun col pm =>
         cell ← Py.getitem2 (attack_grid self) row col;
         if attacked cell then Py.setitem2 pm row col 0
         else Py.setitem2 pm row col 1)
      0 (Z.to_nat (Z.of_nat n)) pm0) as (pm1 & E1 & Hs1 & H1); [done| |].
    + intros col pm1 Hcol [Hs1 H1].
      destruct (getitem2_is_Some n (attack_grid self) row col)
        as [cell Ec]; [done|lia|lia|].
      rewrite Ec. simpl mbind.
      destruct (setitem2_nonneg n pm1 row col (if attacked cell then 0 else 1))
        as (pm2 & E2 & Hs2 & H2); [done|lia|lia|].
      exists pm2. split; [by destruct (attacked cell)|].
      split; [done|]. intros r c Hr Hc Hlt. rewrite H2 by done.
      destruct (Z.eqb_spec r row), (Z.eqb_spec c col); simpl; subst.
      * by rewrite (cell_attacked_getitem2 _ _ _ _ Ec).
      * apply H1; [done|done|lia].
      * apply H1; [done|done|lia].
      * apply H1; [done|done|lia].
    + exists pm1. split; [done|]. split; [done|].
      intros r c Hr Hc Hlt. apply H1; [done|done|lia].
  - exists pm'. split; [done|]. split; [done|].
    intros r c Hr Hc. apply H'; [done|done|lia].
Qed.

(** What [update_probability_map] leaves in the map: the expected weight of
    every cell, for the whole dictionary of ships it iterates over. *)
Lemma update_probability_map_weights self opp :
  shape n (attack_grid self) → shape n (probability_map self) →
  ∃ pm', update_probability_map (Z.of_nat n) ships self opp =
           Some (set_probability_map self pm') ∧
    shape n pm' ∧
    ∀ r c, 0 <= r < Z.of_nat n → 0 <= c < Z.of_nat n →
      Py.getitem2 pm' r c =
        Some (expected_weight (Z.of_nat n) ships (attack_grid self) (r, c)).
Proof.
  intros Hg Hs. unfold update_probability_map.
  destruct (base_weights_spec self
    ((fun row : list Z => (fun _ => 0) <$> row) <$> probability_map self))
    as (pm1 & E1 & Hs1 & H1); [done|by apply fill_zero_shape|].
  rewrite E1. simpl mbind.
  destruct (count_placements_adds self opp pm1) as (pm2 & E2 & Hs2 & H2);
    [done|done|].
  rewrite E2. simpl mbind.
  exists pm2. split; [done|]. split; [done|].
  intros r c Hr Hc. rewrite H2, H1 by done. simpl. f_equal.
  unfold expected_weight.
  destruct (cell_attacked (attack_grid self) (r, c)) eqn:Ea; [|done].
  rewrite (sum_list_ext _ (fun _ => 0)).
  - clear. induction ships as [|x l IH]; simpl; lia.
  - intros [ship length]. by apply placements_through_attacked.
Qed.

End ProbabilityMap.

(** ** The first largest entry *)

Lemma argmax_from_spec l pre bi b :
  pre !! bi = Some b →
  (∀ j x, pre !! j = Some x → x <= b ∧ ((j < bi)%nat → x < b)) →
  ∃ m, (pre ++ l) !! argmax_from l (length pre) bi b = Some m ∧
    ∀ j x, (pre ++ l) !! j = Some x →
      x <= m ∧ ((j < argmax_from l (length pre) bi b)%nat → x < m).
Proof.
  revert pre bi b. induction l as [|y l IH]; intros pre bi b Hb Hmax; simpl.
  - rewrite app_nil_r. eauto.
  - pose proof (lookup_lt_Some _ _ _ Hb) as Hlt.
    replace (pre ++ y :: l) with ((pre ++ [y]) ++ l) by by rewrite <- app_assoc.
    replace (S (length pre)) with (length (pre ++ [y]))
      by (rewrite length_app; simpl; lia).
    destruct (Z.ltb_spec b y) as [Hby|Hby].
    + apply IH.
      * rewrite lookup_app_r by lia. by rewrite Nat.sub_diag.
      * intros j x Hj. destruct (decide (j < length pre)%nat) as [Hjl|Hjl].
        -- rewrite lookup_app_l in Hj by done.
           destruct (Hmax j x Hj) as [Hle _]. lia.
        -- rewrite lookup_app_r in Hj by lia.
           destruct (j - length pre)%nat as [|k] eqn:Ek; simpl in Hj; [|done].
           inversion Hj; subst. lia.
    + apply IH.
      * by rewrite lookup_app_l.
      * intros j x Hj. destruct (decide (j < length pre)%nat) as [Hjl|Hjl].
        -- rewrite lookup_app_l in Hj by done. by apply Hmax.
        -- rewrite lookup_app_r in Hj by lia.
           destruct (j - length pre)%nat as [|k] eqn:Ek; simpl in Hj; [|done].
           inversion Hj; subst. lia.
Qed.

Lemma argmax_spec l k :
  argmax l = Some k →
  ∃ m, l !! k = Some m ∧
    ∀ j x, l !! j = Some x → x <= m ∧ ((j < k)%nat → x < m).
Proof.
  destruct l as [|y l]; [done|]. simpl. intros E. inversion E; subst. clear E.
  apply (argmax_from_spec l [y] O y); [done|].
  intros [|j] x Hj; simpl in Hj; [|done]. inversion Hj; subst. lia.
Qed.

Lemma lookup_concat_shape {A} n (m : list (list A)) r c :
  Forall (fun row => length row = n) m → (c < n)%nat →
  concat m !! (r * n + c)%nat = (m !! r) ≫= (fun row => row !! c).
Proof.
  intros Hall Hc. revert r. induction Hall as [|row m' Hrow Hall IH]; intros r.
  - simpl. by rewrite !lookup_nil.
  - destruct r as [|r]; simpl.
    + rewrite lookup_app_l by lia. done.
    + rewrite lookup_app_r by lia.
      replace (n + r * n + c - length row)%nat with (r * n + c)%nat by lia.
      apply IH.
Qed.

Lemma length_concat_shape {A} n (m : list (list A)) :
  Forall (fun row => length row = n) m →
  length (concat m) = (length m * n)%nat.
Proof.
  induction 1 as [|row m' Hrow Hall IH]; [done|].
  simpl. rewrite length_app. lia.
Qed.

(** [argmax_index] on a square map: a coordinate of the board whose weight
    no cell exceeds and no earlier cell, row by row, reaches. *)
Lemma argmax_index_spec n (m : list (list Z)) :
  (0 < n)%nat → shape n m →
  ∃ p w, argmax_index m = Some p ∧
    0 <= p.1 < Z.of_nat n ∧ 0 <= p.2 < Z.of_nat n ∧
    Py.getitem2 m p.1 p.2 = Some w ∧
    ∀ r c, 0 <= r < Z.of_nat n → 0 <= c < Z.of_nat n →
      ∃ w', Py.getitem2 m r c = Some w' ∧ w' <= w ∧
        (r < p.1 ∨ (r = p.1 ∧ c < p.2) → w' < w).
Proof.
  intros Hn Hs. pose proof Hs as [Hl Hall].
  unfold argmax_index.
  destruct (argmax (concat m)) as [k|] eqn:Ek.
  2:{ destruct m as [|row m']; [simpl in Hl; lia|].
      inversion Hall as [|? ? Hrow _]; subst.
      destruct row; [simpl in Hrow; lia|done]. }
  destruct (argmax_spec _ _ Ek) as (w & Hk & Hmax).
  pose proof (lookup_lt_Some _ _ _ Hk) as Hklt.
  rewrite (length_concat_shape n) in Hklt by done. rewrite Hl in Hklt.
  assert (Hcols : length (default [] (head m)) = n).
  { destruct m as [|row m']; [simpl in Hl; lia|].
    by inversion Hall. }
  rewrite Hcols. simpl mbind.
  set (r0 := (k / n)%nat). set (c0 := (k mod n)%nat).
  assert (Hk0 : k = (r0 * n + c0)%nat).
  { unfold r0, c0. pose proof (Nat.div_mod_eq k n). lia. }
  assert (Hc0 : (c0 < n)%nat) by (apply Nat.mod_upper_bound; lia).
  assert (Hr0 : (r0 < n)%nat) by (apply Nat.Div0.div_lt_upper_bound; lia).
  assert (Ediv : Z.of_nat k / Z.of_nat n = Z.of_nat r0)
    by (unfold r0; by rewrite Nat2Z.inj_div).
  assert (Emod : Z.of_nat k mod Z.of_nat n = Z.of_nat c0)
    by (unfold c0; by rewrite Nat2Z.inj_mod).
  rewrite Ediv, Emod.
  exists (Z.of_nat r0, Z.of_nat c0), w. simpl.
  split; [done|]. split; [lia|]. split; [lia|]. split.
  - rewrite (getitem2_nonneg n) by (done || lia).
    rewrite !Nat2Z.id. rewrite <- (lookup_concat_shape n) by done.
    by rewrite <- Hk0.
  - intros r c Hr Hc.
    destruct (getitem2_is_Some n m r c) as [w' Ew]; [done|done|done|].
    exists w'. split; [done|].
    rewrite (getitem2_nonneg n) in Ew by done.
    rewrite <- (lookup_concat_shape n) in Ew by (done || lia).
    destruct (Hmax _ _ Ew) as [Hle Hlt]. split; [done|].
    intros Hbefore. apply Hlt. nia.
Qed.

(** ** update_probability_map *)

Lemma shape_np_zeros n : shape (Z.to_nat n) (np_zeros n).
Proof.
  unfold np_zeros. split; [by rewrite length_replicate|].
  apply Forall_replicate. by rewrite length_replicate.
Qed.

(** C3, as amended: [update_probability_map] succeeds on a square board
    and leaves in every cell the expected weight for the whole [SHIP_TYPES]
    dictionary: each configured ship contributes its placements, whatever
    the opponent's fleet still holds. *)
Theorem update_probability_map_counts_every_ship n ships self opp :
  shape n (attack_grid self) → shape n (probability_map self) →
  ∃ self', update_probability_map (Z.of_nat n) ships self opp = Some self' ∧
    ∀ r c, 0 <= r < Z.of_nat n → 0 <= c < Z.of_nat n →
      Py.getitem2 (probability_map self') r c =
        Some (expected_weight (Z.of_nat n) ships (attack_grid self) (r, c)).
Proof.
  intros Hg Hs.
  destruct (update_probability_map_weights n ships self opp)
    as (pm' & E & _ & H); [done|done|].
  exists (set_probability_map self pm'). split; [done|]. exact H.
Qed.

(** The first map of a game: the corner cell has one horizontal and one
    vertical placement of each of the five ships through it. *)
Lemma update_probability_map_counts_every_ship_witness :
  ∃ self', update_probability_map 8 fleet5 (new_ComputerPlayer 8)
             (new_BasePlayer 8 "Player") = Some self' ∧
    Py.getitem2 (probability_map self') 0 0 = Some 11.
Proof.
  destruct (update_probability_map_counts_every_ship 8 fleet5
              (new_ComputerPlayer 8) (new_BasePlayer 8 "Player"))
    as (self' & E & H).
  - apply (shape_new_grid 8).
  - apply (shape_np_zeros 8).
  - exists self'. split; [exact E|]. rewrite H by lia. reflexivity.
Defined.

(** C8: after [update_probability_map] every attacked cell of the board
    has weight 0 and every other cell has weight at least 1, among them the
    cells through which a ship still fits. *)
Theorem update_probability_map_zero_or_positive n ships self opp :
  shape n (attack_grid self) → shape n (probability_map self) →
  ∃ self', update_probability_map (Z.of_nat n) ships self opp = Some self' ∧
    attack_grid self' = attack_grid self ∧
    ∀ r c, 0 <= r < Z.of_nat n → 0 <= c < Z.of_nat n →
      ∃ cell w, Py.getitem2 (attack_grid self') r c = Some cell ∧
        Py.getitem2 (probability_map self') r c = Some w ∧
        (attacked cell = true → w = 0) ∧
        (attacked cell = false → 1 <= w).
Proof.
  intros Hg Hs.
  destruct (update_probability_map_weights n ships self opp)
    as (pm' & E & _ & H); [done|done|].
  exists (set_probability_map self pm'). split; [done|]. split; [done|].
  intros r c Hr Hc.
  destruct (getitem2_is_Some n (attack_grid self) r c) as [cell Ec];
    [done|done|done|].
  exists cell, (expected_weight (Z.of_nat n) ships (attack_grid self) (r, c)).
  split; [done|]. split; [by apply H|].
  unfold expected_weight. rewrite (cell_attacked_getitem2 _ _ _ _ Ec).
  split; intros Ha; rewrite Ha; [done|].
  assert (0 <= sum_list (fun '(_, length) =>
            placements_through (Z.of_nat n) (attack_grid self) length (r, c))
            ships); [|lia].
  apply sum_list_nonneg. intros [ship length]. apply placements_through_nonneg.
Qed.

Lemma update_probability_map_zero_or_positive_witness :
  ∃ self', update_probability_map 8 fleet5 (new_ComputerPlayer 8)
             (new_BasePlayer 8 "Player") = Some self' ∧
    ∃ w, Py.getitem2 (probability_map self') 3 3 = Some w ∧ 1 <= w.
Proof.
  destruct (update_probability_map_zero_or_positive 8 fleet5
              (new_ComputerPlayer 8) (new_BasePlayer 8 "Player"))
    as (self' & E & Eg & H).
  - apply (shape_new_grid 8).
  - apply (shape_np_zeros 8).
  - exists self'. split; [exact E|].
    destruct (H 3 3) as (cell & w & Ec & Ew & _ & Hpos); [lia|lia|].
    exists w. split; [exact Ew|]. apply Hpos.
    rewrite Eg in Ec. vm_compute in Ec. by inversion Ec.
Defined.

(** ** The targeting engine *)

Lemma valid_move_spec n (g : Grid) p :
  shape n g →
  valid_move (Z.of_nat n) g p =
    Some (on_board (Z.of_nat n) p && negb (cell_attacked g p)).
Proof.
  intros Hs. destruct p as [r c]. unfold valid_move, on_board. simpl.
  destruct (Z.leb_spec 0 r), (Z.ltb_spec r (Z.of_nat n)),
    (Z.leb_spec 0 c), (Z.ltb_spec c (Z.of_nat n)); simpl; try done.
  destruct (getitem2_is_Some n g r c) as [cell E]; [done|lia|lia|].
  rewrite E. simpl. by rewrite (cell_attacked_getitem2 _ _ _ _ E).
Qed.

Lemma filter_moves_spec n (g : Grid) l :
  shape n g →
  Py.filter_list (valid_move (Z.of_nat n) g) l =
    Some (List.filter
            (fun p => on_board (Z.of_nat n) p && negb (cell_attacked g p)) l).
Proof.
  intros Hs. induction l as [|p l IH]; [done|].
  simpl. rewrite (valid_move_spec n) by done. simpl. rewrite IH. simpl.
  by destruct (on_board (Z.of_nat n) p && negb (cell_attacked g p)).
Qed.

Lemma choice_elem_of {A} rnd (l : list A) :
  l ≠ [] → ∃ x, choice rnd l = Some x ∧ x ∈ l.
Proof.
  intros Hne. unfold choice.
  destruct (lookup_lt_is_Some_2 l (rnd mod length l)%nat) as [x E].
  - apply Nat.mod_upper_bound. by destruct l.
  - exists x. split; [done|]. by eapply list_elem_of_lookup_2.
Qed.

(** C7: the probability mode returns a coordinate of the board whose
    weight in the recomputed map is the largest; every cell before it in
    row-major order weighs strictly less. *)
Theorem probability_target_first_maximum n ships reset self opp :
  (0 < n)%nat →
  shape n (attack_grid self) → shape n (probability_map self) →
  ∃ p self' w,
    probability_target (Z.of_nat n) ships reset self opp = Some (p, self') ∧
    update_probability_map (Z.of_nat n) ships
      (if reset then set_hunt self None [] None else self) opp = Some self' ∧
    0 <= p.1 < Z.of_nat n ∧ 0 <= p.2 < Z.of_nat n ∧
    Py.getitem2 (probability_map self') p.1 p.2 = Some w ∧
    ∀ r c, 0 <= r < Z.of_nat n → 0 <= c < Z.of_nat n →
      ∃ w', Py.getitem2 (probability_map self') r c = Some w' ∧ w' <= w ∧
        (r < p.1 ∨ (r = p.1 ∧ c < p.2) → w' < w).
Proof.
  intros Hn Hg Hs. unfold probability_target.
  set (self0 := if reset then set_hunt self None [] None else self).
  assert (Hg0 : shape n (attack_grid self0)) by (unfold self0; by destruct reset).
  assert (Hs0 : shape n (probability_map self0)) by (unfold self0; by destruct reset).
  destruct (update_probability_map_weights n ships self0 opp)
    as (pm' & E & Hs' & _); [done|done|].
  rewrite E. simpl mbind.
  destruct (argmax_index_spec n pm' Hn Hs') as (p & w & Ep & Hr & Hc & Hw & Hmax).
  rewrite Ep. simpl mbind.
  exists p, (set_probability_map self0 pm'), w.
  split; [done|]. split; [done|]. split; [exact Hr|]. split; [exact Hc|].
  split; [exact Hw|exact Hmax].
Qed.

(** The first shot of a game: the largest weight, 33, is in the middle of
    the board, and (3, 3) is the first cell that has it. *)
Lemma probability_target_first_maximum_witness :
  ∃ p self' w,
    probability_target 8 fleet5 false (new_ComputerPlayer 8)
      (new_BasePlayer 8 "Player") = Some (p, self') ∧
    Py.getitem2 (probability_map self') p.1 p.2 = Some w ∧
    ∀ r c, 0 <= r < 8 → 0 <= c < 8 →
      ∃ w', Py.getitem2 (probability_map self') r c = Some w' ∧ w' <= w ∧
        (r < p.1 ∨ (r = p.1 ∧ c < p.2) → w' < w).
Proof.
  destruct (probability_target_first_maximum 8 fleet5 false
              (new_ComputerPlayer 8) (new_BasePlayer 8 "Player"))
    as (p & self' & w & E & _ & _ & _ & Hw & Hmax).
  - lia.
  - apply (shape_new_grid 8).
  - apply (shape_np_zeros 8).
  - exists p, self', w. split; [exact E|]. split; [exact Hw|exact Hmax].
Defined.

Lemma update_probability_map_frame n ships self opp self' :
  update_probability_map n ships self opp = Some self' →
  ∃ pm, self' = set_probability_map self pm.
Proof.
  unfold update_probability_map. intros E.
  destruct (base_weights n self _) as [pm1|]; [|done]. simpl in E.
  destruct (count_placements n ships self opp pm1) as [pm2|]; [|done].
  simpl in E. inversion E. eauto.
Qed.

Lemma probability_target_frame n ships reset self opp p self' :
  probability_target n ships reset self opp = Some (p, self') →
  attack_grid self' = attack_grid self ∧
  (reset = true → last_hit self' = None ∧ hit_stack self' = [] ∧
                  direction self' = None) ∧
  (reset = false → last_hit self' = last_hit self ∧
                   hit_stack self' = hit_stack self ∧
                   direction self' = direction self).
Proof.
  unfold probability_target. intros E.
  destruct (update_probability_map n ships _ opp) as [self1|] eqn:E1; [|done].
  simpl in E. destruct (argmax_index (probability_map self1)); [|done].
  simpl in E. inversion E; subst.
  apply update_probability_map_frame in E1 as [pm ->].
  destruct reset; simpl; repeat split; done.
Qed.

Lemma probability_target_total n ships reset self opp :
  (0 < n)%nat →
  shape n (attack_grid self) → shape n (probability_map self) →
  is_Some (probability_target (Z.of_nat n) ships reset self opp).
Proof.
  intros Hn Hg Hs. unfold probability_target.
  set (self0 := if reset then set_hunt self None [] None else self).
  destruct (update_probability_map_weights n ships self0 opp)
    as (pm' & E & Hs' & _); [by destruct reset|by destruct reset|].
  rewrite E. simpl mbind.
  destruct (argmax_index_spec n pm' Hn Hs') as (p & w & Ep & _).
  rewrite Ep. by eexists.
Qed.

Lemma possible_moves_hunt_cells d row column :
  possible_moves d row column = hunt_cells d row column.
Proof.
  unfold possible_moves, hunt_cells. destruct d as [s|]; [|done].
  by destruct (String.eqb s ""), (String.eqb s "H").
Qed.

(** C6, as amended: a turn on a square board selects its target by
    priority.  A non-empty [hit_stack] gives its front entry, which is
    removed, and nothing else changes.  With an empty [hit_stack] and a
    [last_hit], the candidates are the two cells next to [last_hit] on its
    row when the direction is "H", the two cells next to it on its column
    for another known direction, and its four axis-adjacent cells when no
    direction is known, each kept only if it is on the board and not
    attacked; when a candidate remains the target is the one the random
    draw points at and the state is unchanged; when none remains, the hunt
    state is cleared and the probability mode is used.  With neither
    [hit_stack] nor [last_hit], the probability mode is used. *)
Theorem select_target_priority n ships rnd self opp :
  (0 < n)%nat →
  shape n (attack_grid self) → shape n (probability_map self) →
  ∃ p self', select_target (Z.of_nat n) ships rnd self opp = Some (p, self') ∧
    match hit_stack self with
    | q :: rest =>
        p = q ∧ self' = set_hunt self (last_hit self) rest (direction self)
    | [] =>
        match last_hit self with
        | Some (row, column) =>
            match hunt_candidates (Z.of_nat n) self row column with
            | _ :: _ =>
                hunt_candidates (Z.of_nat n) self row column
                  !! (rnd mod length
                        (hunt_candidates (Z.of_nat n) self row column))%nat
                  = Some p ∧
                self' = self
            | [] =>
                probability_target (Z.of_nat n) ships true self opp
                  = Some (p, self') ∧
                last_hit self' = None ∧ hit_stack self' = [] ∧
                direction self' = None
            end
        | None =>
            probability_target (Z.of_nat n) ships false self opp
              = Some (p, self')
        end
    end.
Proof.
  intros Hn Hg Hs. unfold select_target.
  destruct (hit_stack self) as [|q rest]; [|by eauto].
  destruct (last_hit self) as [[row column]|].
  - rewrite (filter_moves_spec n) by done. simpl mbind.
    rewrite possible_moves_hunt_cells.
    fold (hunt_candidates (Z.of_nat n) self row column).
    destruct (hunt_candidates (Z.of_nat n) self row column) as [|m ms] eqn:Em.
    + destruct (probability_target_total n ships true self opp Hn Hg Hs)
        as [[p self'] E].
      exists p, self'. split; [done|]. split; [done|].
      apply probability_target_frame in E as (_ & Hreset & _).
      by apply Hreset.
    + destruct (choice_elem_of rnd (m :: ms)) as (p & Ep & Hp); [done|].
      rewrite Ep. simpl mbind. exists p, self. split; [done|].
      split; [exact Ep|done].
  - destruct (probability_target_total n ships false self opp Hn Hg Hs)
      as [[p self'] E].
    eauto.
Qed.

(** A hunt along a row: [last_hit] is (3, 4), the direction is "H", nothing
    is queued and the board is blank; the candidates are (3, 3) and (3, 5),
    and the draw 1 points at the second. *)
Lemma select_target_priority_witness :
  ∃ p self',
    select_target 8 fleet5 1
      (set_hunt (new_ComputerPlayer 8) (Some (3, 4)) [] (Some "H"))
      (new_BasePlayer 8 "Player") = Some (p, self') ∧
    p = (3, 5) ∧
    self' = set_hunt (new_ComputerPlayer 8) (Some (3, 4)) [] (Some "H").
Proof.
  destruct (select_target_priority 8 fleet5 1
              (set_hunt (new_ComputerPlayer 8) (Some (3, 4)) [] (Some "H"))
              (new_BasePlayer 8 "Player")) as (p & self' & E & H).
  - lia.
  - apply (shape_new_grid 8).
  - apply (shape_np_zeros 8).
  - exists p, self'. split; [exact E|].
    vm_compute in H. destruct H as [Hp Hs]. split; [by inversion Hp|exact Hs].
Defined.

Lemma select_target_attack_grid n ships rnd self opp p self' :
  select_target n ships rnd self opp = Some (p, self') →
  attack_grid self' = attack_grid self.
Proof.
  unfold select_target. intros E.
  destruct (hit_stack self) as [|q rest]; [|by inversion E].
  destruct (last_hit self) as [[row column]|].
  - destruct (Py.filter_list _ _) as [[|m ms]|]; simpl in E; [| |done].
    + by apply probability_target_frame in E as [? _].
    + destruct (choice rnd (m :: ms)); [|done]. by inversion E.
  - by apply probability_target_frame in E as [? _].
Qed.

(** C1, as amended: a turn whose attack is a hit, whether or not the hit
    sinks a ship, leaves [last_hit] at the attacked coordinate, keeps what
    the selection left of [hit_stack] (new candidates may follow it) and
    does not clear a known [direction]; the opponent's fleet is what
    [check_sunk_ship] makes of it. *)
Theorem take_turn_hit_keeps_hunt n ships rnd self opp p self1 :
  shape n (attack_grid self) →
  select_target (Z.of_nat n) ships rnd self opp = Some (p, self1) →
  on_board (Z.of_nat n) p = true →
  Py.getitem2 (grid (ship_manager opp)) p.1 p.2 = Some "X" →
  ∃ self',
    take_turn (Z.of_nat n) ships rnd self opp =
      Some (self',
            set_ship_manager opp
              (check_sunk_ship (ship_manager opp) p.1 p.2)) ∧
    last_hit self' = Some p ∧
    (∃ new, hit_stack self' = hit_stack self1 ++ new) ∧
    (direction self' = None → direction self1 = None).
Proof.
  intros Hg Esel Hp Hx. unfold take_turn. rewrite Esel. simpl mbind.
  apply select_target_attack_grid in Esel. rewrite <- Esel in Hg.
  destruct p as [row column]. unfold on_board in Hp. simpl in *.
  unfold process_attack. rewrite Hx. simpl mbind. cbv iota.
  destruct (setitem2_nonneg n (attack_grid self1) row column "X")
    as (g & Eg & Hsg & _); [done|lia|lia|].
  rewrite Eg. simpl.
  destruct (last_hit self1) as [[lr lc]|] eqn:El.
  - rewrite (filter_moves_spec n) by done. simpl.
    eexists. split; [reflexivity|]. simpl.
    split; [done|]. split; [by eexists|].
    by destruct (row =? lr), (column =? lc).
  - simpl. eexists. split; [reflexivity|]. simpl.
    split; [done|]. split; [|done]. exists []. by rewrite app_nil_r.
Qed.

(** A first turn that hits: the Carrier lies across the first target. *)
Lemma take_turn_hit_keeps_hunt_witness :
  ∃ h p self1 self',
    human_start = Some h ∧
    select_target 8 fleet5 0 (new_ComputerPlayer 8) h = Some (p, self1) ∧
    take_turn 8 fleet5 0 (new_ComputerPlayer 8) h =
      Some (self',
            set_ship_manager h (check_sunk_ship (ship_manager h) p.1 p.2)) ∧
    last_hit self' = Some p.
Proof.
  destruct human_start as [h|] eqn:Eh; [|by vm_compute in Eh].
  destruct (select_target 8 fleet5 0 (new_ComputerPlayer 8) h)
    as [[p self1]|] eqn:Es.
  2:{ vm_compute in Eh. injection Eh as <-. by vm_compute in Es. }
  assert (Hp : p = (3, 3)).
  { vm_compute in Eh. injection Eh as <-. vm_compute in Es.
    by injection Es as <- <-. }
  destruct (take_turn_hit_keeps_hunt 8 fleet5 0 (new_ComputerPlayer 8) h
              p self1 (shape_new_grid 8) Es) as (self' & E & Hl & _).
  - by subst p.
  - subst p. vm_compute in Eh. by injection Eh as <-.
  - exists h, p, self1, self'.
    split; [reflexivity|]. split; [exact Es|]. split; [exact E|exact Hl].
Defined.

(** C1, as stated, fails.  In the game that starts with the Carrier on row
    3, the fifth computer turn attacks (3, 1), the last position of the
    Carrier, whose entry leaves the fleet; after the turn [last_hit] is
    (3, 1), [direction] is horizontal and [hit_stack] holds five entries. *)
Lemma sinking_turn_keeps_hunt_state :
  ∃ c h c' h',
    game_start ≫= turns [0; 3; 0; 0]%nat = Some (c, h) ∧
    fleet_get "Carrier" (ship_locations (ship_manager h)) = Some [(3, 1)] ∧
    take_turn 8 fleet5 0 c h = Some (c', h') ∧
    fleet_get "Carrier" (ship_locations (ship_manager h')) = None ∧
    last_hit c' = Some (3, 1) ∧
    direction c' = Some "H" ∧
    hit_stack c' = [(3, 5); (3, 1); (3, 6); (3, 0); (3, 6)].
Proof.
  destruct (game_start ≫= turns [0; 3; 0; 0]%nat) as [[c h]|] eqn:E0;
    [|by vm_compute in E0].
  destruct (take_turn 8 fleet5 0 c h) as [[c' h']|] eqn:E1;
    [|vm_compute in E0; injection E0 as <- <-; by vm_compute in E1].
  exists c, h, c', h'.
  split; [reflexivity|].
  split. { vm_compute in E0. injection E0 as <- <-. reflexivity. }
  split; [exact E1|].
  vm_compute in E0. injection E0 as <- <-.
  vm_compute in E1. injection E1 as <- <-.
  repeat split; reflexivity.
Qed.

(** C2 fails on the code.  In the game that starts with the Carrier on row
    3, the candidate (3, 5) is queued twice (after the hits at (3, 4) and at
    (3, 2)); it is attacked on the fourth turn, and the sixth turn takes it
    from [hit_stack] again, with ships still afloat. *)
Lemma take_turn_repeats_attack :
  ∃ c h p c1,
    game_start ≫= turns [0; 3; 0; 0; 0]%nat = Some (c, h) ∧
    all_ships_sunk (ship_manager h) = false ∧
    select_target 8 fleet5 0 c h = Some (p, c1) ∧
    p = (3, 5) ∧
    Py.getitem2 (attack_grid c) p.1 p.2 = Some "X".
Proof.
  destruct (game_start ≫= turns [0; 3; 0; 0; 0]%nat) as [[c h]|] eqn:E0;
    [|by vm_compute in E0].
  destruct (select_target 8 fleet5 0 c h) as [[p c1]|] eqn:E1;
    [|vm_compute in E0; injection E0 as <- <-; by vm_compute in E1].
  exists c, h, p, c1.
  split; [reflexivity|].
  split. { vm_compute in E0. injection E0 as <- <-. reflexivity. }
  split; [exact E1|].
  vm_compute in E0. injection E0 as <- <-.
  vm_compute in E1. injection E1 as <- <-.
  split; reflexivity.
Qed.

(** C3, as stated, fails.  After the fifth turn of the same game the
    Carrier is sunk; the map computed then gives the corner (7, 7) the
    weight 11, the Carrier's two placements included, where the remaining
    four ships alone give 9. *)
Lemma sunk_ship_still_counted :
  ∃ c h c',
    game_start ≫= turns [0; 3; 0; 0; 0]%nat = Some (c, h) ∧
    fleet_get "Carrier" (ship_locations (ship_manager h)) = None ∧
    update_probability_map 8 fleet5 c h = Some c' ∧
    Py.getitem2 (probability_map c') 7 7 = Some 11 ∧
    expected_weight 8 (remaining_ships fleet5 h) (attack_grid c) (7, 7) = 9.
Proof.
  destruct (game_start ≫= turns [0; 3; 0; 0; 0]%nat) as [[c h]|] eqn:E0;
    [|by vm_compute in E0].
  destruct (update_probability_map 8 fleet5 c h) as [c'|] eqn:E1;
    [|vm_compute in E0; injection E0 as <- <-; by vm_compute in E1].
  exists c, h, c'.
  split; [reflexivity|].
  split. { vm_compute in E0. injection E0 as <- <-. reflexivity. }
  split; [exact E1|].
  vm_compute in E0. injection E0 as <- <-.
  vm_compute in E1. injection E1 as <-.
  split; vm_compute; reflexivity.
Qed.

(** C6, as stated, fails in its last clause.  In the game that starts with
    the Destroyer on row 3, the Destroyer is sunk on the second turn and the
    two queued candidates miss; the fifth turn starts with [last_hit] set
    and an empty [hit_stack], finds no candidate, and selects its target
    from the recomputed probability map. *)
Lemma exhausted_hunt_uses_probability_map :
  ∃ c h p c',
    game_start_destroyer ≫= turns [0; 3; 0; 0]%nat = Some (c, h) ∧
    hit_stack c = [] ∧ last_hit c = Some (3, 4) ∧
    select_target 8 fleet5 0 c h = Some (p, c') ∧
    probability_target 8 fleet5 true c h = Some (p, c') ∧
    probability_map c' ≠ probability_map c.
Proof.
  destruct (game_start_destroyer ≫= turns [0; 3; 0; 0]%nat)
    as [[c h]|] eqn:E0; [|by vm_compute in E0].
  destruct (select_target 8 fleet5 0 c h) as [[p c']|] eqn:E1;
    [|vm_compute in E0; injection E0 as <- <-; by vm_compute in E1].
  exists c, h, p, c'.
  split; [reflexivity|].
  split. { vm_compute in E0. injection E0 as <- <-. reflexivity. }
  split. { vm_compute in E0. injection E0 as <- <-. reflexivity. }
  split; [exact E1|].
  vm_compute in E0. injection E0 as <- <-.
  vm_compute in E1. injection E1 as <- <-.
  split; [vm_compute; reflexivity|].
  vm_compute. discriminate.
Qed.

(** * Further properties *)

(** ** Placement *)

(** The runs [validate_placement] accepts, for an origin on the board. *)
Lemma validate_placement_run_on_board_iff n length row column orientation :
  0 <= row < n → 0 <= column < n →
  (validate_placement n length row column orientation = true ↔
   ∀ p, p ∈ run_cells row column orientation length → on_board n p = true).
Proof.
  intros Hr Hc. unfold validate_placement, run_cells, on_board.
  destruct (String.eqb orientation "H"); split.
  - intros Hv p Hp. apply list_elem_of_fmap in Hp as (k & -> & Hk).
    apply elem_of_seq in Hk. simpl.
    destruct (Z.leb_spec 0 row), (Z.ltb_spec row n),
      (Z.leb_spec 0 (column + Z.of_nat k)),
      (Z.ltb_spec (column + Z.of_nat k) n); simpl; try done; lia.
  - intros Hall. destruct (Z.leb_spec (column + length) n); [done|].
    specialize (Hall (row, column + Z.of_nat (Z.to_nat (length - 1)))).
    simpl in Hall.
    destruct (Z.leb_spec 0 row), (Z.ltb_spec row n),
      (Z.leb_spec 0 (column + Z.of_nat (Z.to_nat (length - 1)))),
      (Z.ltb_spec (column + Z.of_nat (Z.to_nat (length - 1))) n);
      simpl in Hall; try lia;
      (discriminate Hall ||
       (exfalso; apply diff_false_true; apply Hall));
      apply (list_elem_of_fmap_2 (fun k => (row, column + Z.of_nat k)));
      apply elem_of_seq; lia.
  - intros Hv p Hp. apply list_elem_of_fmap in Hp as (k & -> & Hk).
    apply elem_of_seq in Hk. simpl.
    destruct (Z.leb_spec 0 (row + Z.of_nat k)),
      (Z.ltb_spec (row + Z.of_nat k) n),
      (Z.leb_spec 0 column), (Z.ltb_spec column n); simpl; try done; lia.
  - intros Hall. destruct (Z.leb_spec (row + length) n); [done|].
    specialize (Hall (row + Z.of_nat (Z.to_nat (length - 1)), column)).
    simpl in Hall.
    destruct (Z.leb_spec 0 (row + Z.of_nat (Z.to_nat (length - 1)))),
      (Z.ltb_spec (row + Z.of_nat (Z.to_nat (length - 1))) n),
      (Z.leb_spec 0 column), (Z.ltb_spec column n);
      simpl in Hall; try lia;
      (discriminate Hall ||
       (exfalso; apply diff_false_true; apply Hall));
      apply (list_elem_of_fmap_2 (fun k => (row + Z.of_nat k, column)));
      apply elem_of_seq; lia.
Qed.

(** X1: for an origin on the board, [validate_placement] accepts exactly
    the placements whose run stays on the board. *)
Theorem validate_placement_run_on_board n length row column orientation :
  0 <= row < n → 0 <= column < n →
  (validate_placement n length row column orientation = true ↔
   ∀ p, p ∈ run_cells row column orientation length → on_board n p = true).
Proof.
  intros Hr Hc. by apply validate_placement_run_on_board_iff.
Qed.

Lemma validate_placement_run_on_board_witness :
  validate_placement 8 3 0 0 "H" = true ↔
  ∀ p, p ∈ run_cells 0 0 "H" 3 → on_board 8 p = true.
Proof. apply (validate_placement_run_on_board 8 3 0 0 "H"); lia. Defined.

Lemma existsb_fmap {A B} (f : B → bool) (g : A → B) l :
  existsb f (map g l) = existsb (fun x => f (g x)) l.
Proof. induction l as [|x l IH]; simpl; [done|]. by rewrite IH. Qed.

Lemma ship_at_getitem2 (g : Grid) r c cell :
  Py.getitem2 g r c = Some cell → ship_at g (r, c) = String.eqb cell "X".
Proof. intros E. unfold ship_at. simpl. by rewrite E. Qed.

Lemma validate_placement_fits n length row column o :
  validate_placement n length row column o = true →
  if String.eqb o "H" then column + length <= n else row + length <= n.
Proof. unfold validate_placement. destruct (String.eqb o "H"); lia. Qed.

(** On a placement that fits, [check_overlap] looks at every cell of the
    run and at nothing else. *)
Lemma check_overlap_spec n (g : Grid) row column o length :
  shape n g → 0 <= row < Z.of_nat n → 0 <= column < Z.of_nat n →
  validate_placement (Z.of_nat n) length row column o = true →
  check_overlap g row column o length =
    existsb (ship_at g) (run_cells row column o length).
Proof.
  intros Hs Hr Hc Hv. apply validate_placement_fits in Hv.
  unfold check_overlap, run_cells.
  destruct (String.eqb o "H").
  - rewrite (any_range_total _ _ _ (fun i => ship_at g (row, i))).
    + by rewrite existsb_fmap.
    + intros i Hi.
      destruct (getitem2_is_Some n g row i) as [cell E]; [done|done|lia|].
      rewrite E. simpl. by rewrite (ship_at_getitem2 _ _ _ _ E).
  - rewrite (any_range_total _ _ _ (fun i => ship_at g (i, column))).
    + by rewrite existsb_fmap.
    + intros i Hi.
      destruct (getitem2_is_Some n g i column) as [cell E]; [done|lia|done|].
      rewrite E. simpl. by rewrite (ship_at_getitem2 _ _ _ _ E).
Qed.

(** X2: on a square grid, for a placement with its origin on the board that
    [validate_placement] accepts, [check_overlap] answers true exactly when
    some cell of the run already holds a ship. *)
Theorem check_overlap_iff_ship_in_run n (g : Grid) row column o length :
  shape n g → 0 <= row < Z.of_nat n → 0 <= column < Z.of_nat n →
  validate_placement (Z.of_nat n) length row column o = true →
  (check_overlap g row column o length = true ↔
   ∃ p, p ∈ run_cells row column o length ∧
        Py.getitem2 g p.1 p.2 = Some "X").
Proof.
  intros Hs Hr Hc Hv. rewrite (check_overlap_spec n) by done.
  rewrite existsb_exists. split.
  - intros (p & Hp & Hx). exists p. split; [by apply list_elem_of_In|].
    unfold ship_at in Hx. destruct (Py.getitem2 g p.1 p.2); [|done].
    f_equal. by apply String.eqb_eq.
  - intros (p & Hp & Hx). exists p. split; [by apply list_elem_of_In|].
    unfold ship_at. by rewrite Hx.
Qed.

(** The grid of the unit test: a ship on (0, 0) and (0, 1). *)
Lemma check_overlap_iff_ship_in_run_witness :
  ∃ g, Py.setitem2 (new_grid 8) 0 0 "X" ≫= (fun g => Py.setitem2 g 0 1 "X")
         = Some g ∧
    (check_overlap g 0 0 "H" 2 = true ↔
     ∃ p, p ∈ run_cells 0 0 "H" 2 ∧ Py.getitem2 g p.1 p.2 = Some "X").
Proof.
  eexists. split; [reflexivity|].
  apply (check_overlap_iff_ship_in_run 8); [|lia|lia|reflexivity].
  split; [reflexivity|]. repeat constructor.
Defined.

(** ** deploy_ship, both orientations *)

Lemma coord_eqb_eq p q : coord_eqb p q = true ↔ p = q.
Proof.
  destruct p as [a b], q as [c d]. unfold coord_eqb. simpl.
  rewrite andb_true_iff, !Z.eqb_eq. split; [by intros [-> ->]|].
  intros E. by inversion E.
Qed.

Lemma coord_eqb_refl p : coord_eqb p p = true.
Proof. by apply coord_eqb_eq. Qed.

Lemma contains_elem_of p (l : list Coord) :
  Py.contains coord_eqb p l = true ↔ p ∈ l.
Proof.
  induction l as [|q l IH]; simpl.
  - split; [done|]. by intros H%elem_of_nil.
  - rewrite orb_true_iff, coord_eqb_eq, IH, elem_of_cons.
    split; (intros [H|H]; [left|right]; done).
Qed.

Lemma covers_elem_of row col length o p :
  covers row col length o p = true ↔ p ∈ run_cells row col o length.
Proof.
  destruct p as [r c]. unfold covers, run_cells. simpl.
  destruct (String.eqb o "H"); split.
  - intros H.
    destruct (Z.eqb_spec r row), (Z.leb_spec col c),
      (Z.ltb_spec c (col + length)); try done. subst r.
    apply (list_elem_of_fmap_2' _ _ (Z.to_nat (c - col)));
      [apply elem_of_seq; lia|f_equal; lia].
  - intros H. apply list_elem_of_fmap in H as (k & E & Hk).
    apply elem_of_seq in Hk. inversion E; subst.
    destruct (Z.eqb_spec row row), (Z.leb_spec col (col + Z.of_nat k)),
      (Z.ltb_spec (col + Z.of_nat k) (col + length)); simpl; try done; lia.
  - intros H.
    destruct (Z.eqb_spec c col), (Z.leb_spec row r),
      (Z.ltb_spec r (row + length)); try done. subst c.
    apply (list_elem_of_fmap_2' _ _ (Z.to_nat (r - row)));
      [apply elem_of_seq; lia|f_equal; lia].
  - intros H. apply list_elem_of_fmap in H as (k & E & Hk).
    apply elem_of_seq in Hk. inversion E; subst.
    destruct (Z.eqb_spec col col), (Z.leb_spec row (row + Z.of_nat k)),
      (Z.ltb_spec (row + Z.of_nat k) (row + length)); simpl; try done; lia.
Qed.

Lemma contains_run_cells row col length o p :
  Py.contains coord_eqb p (run_cells row col o length) =
  covers row col length o p.
Proof.
  apply eq_true_iff_eq. by rewrite contains_elem_of, covers_elem_of.
Qed.

(** The loop of [deploy_ship] over cells of the board: every cell gets the
    ship mark and is recorded, in order. *)
Lemma deploy_loop n ship (cellf : Z → Coord) base s k sm :
  shape n (grid sm) →
  (∀ j, (s <= j < s + k)%nat →
        on_board (Z.of_nat n) (cellf (base + Z.of_nat j)) = true) →
  ∃ sm',
    Py.for_range (base + Z.of_nat s) k (fun i sm =>
      g ← Py.setitem2 (grid sm) (cellf i).1 (cellf i).2 "X";
      Some (mkShipManager g
              (setdefault_append ship (cellf i) (ship_locations sm))
              (opponent sm))) sm = Some sm' ∧
    shape n (grid sm') ∧
    (∀ r c, 0 <= r < Z.of_nat n → 0 <= c < Z.of_nat n →
       Py.getitem2 (grid sm') r c =
         if Py.contains coord_eqb (r, c)
              (map (fun j => cellf (base + Z.of_nat j)) (seq s k))
         then Some "X" else Py.getitem2 (grid sm) r c) ∧
    ship_locations sm' =
      record_run ship (map (fun j => cellf (base + Z.of_nat j)) (seq s k))
        (ship_locations sm) ∧
    opponent sm' = opponent sm.
Proof.
  revert s sm. induction k as [|k IH]; intros s sm Hs Hon.
  - exists sm. simpl. split; [done|]. split; [done|]. by split.
  - cbn [Py.for_range seq map].
    pose proof (Hon s ltac:(lia)) as H0. unfold on_board in H0.
    destruct (cellf (base + Z.of_nat s)) as [r0 c0] eqn:Ecell. simpl in H0.
    destruct (setitem2_nonneg n (grid sm) r0 c0 "X") as (g1 & E1 & Hs1 & Hg1);
      [done|lia|lia|].
    simpl fst. simpl snd. rewrite E1. simpl mbind.
    replace (base + Z.of_nat s + 1) with (base + Z.of_nat (S s)) by lia.
    destruct (IH (S s)
      (mkShipManager g1 (setdefault_append ship (r0, c0) (ship_locations sm))
         (opponent sm))) as (sm' & E & Hs' & Hg' & Hl' & Ho'); [done| |].
    { intros j Hj. apply Hon. lia. }
    exists sm'. split; [exact E|]. split; [done|].
    split; [|split; [exact Hl'|exact Ho']].
    intros r c Hr Hc. rewrite Hg' by done. simpl grid. rewrite Hg1 by done.
    cbn [Py.contains]. unfold coord_eqb at 2. simpl fst. simpl snd.
    destruct (Py.contains coord_eqb (r, c) _); [by rewrite orb_true_r|].
    rewrite orb_false_r.
    by destruct (Z.eqb_spec r0 r), (Z.eqb_spec c0 c), (Z.eqb_spec r r0),
      (Z.eqb_spec c c0); simpl; try done; lia.
Qed.

(** What a successful [deploy_ship] leaves in [ship_locations], on any
    grid. *)
Lemma deploy_loop_locations ship (cellf : Z → Coord) base s k sm sm' :
  Py.for_range (base + Z.of_nat s) k (fun i sm =>
    g ← Py.setitem2 (grid sm) (cellf i).1 (cellf i).2 "X";
    Some (mkShipManager g
            (setdefault_append ship (cellf i) (ship_locations sm))
            (opponent sm))) sm = Some sm' →
  ship_locations sm' =
    record_run ship (map (fun j => cellf (base + Z.of_nat j)) (seq s k))
      (ship_locations sm).
Proof.
  revert s sm. induction k as [|k IH]; intros s sm E.
  - simpl in E. by inversion E.
  - cbn [Py.for_range seq map] in *.
    destruct (Py.setitem2 (grid sm) _ _ "X") as [g1|]; [|done].
    simpl mbind in E.
    replace (base + Z.of_nat s + 1) with (base + Z.of_nat (S s)) in E by lia.
    by rewrite (IH _ _ E).
Qed.

Lemma deploy_ship_locations sm ship length row column o sm' :
  deploy_ship sm ship length row column o = Some sm' →
  ship_locations sm' =
    record_run ship (run_cells row column o length) (ship_locations sm).
Proof.
  unfold deploy_ship, run_cells. destruct (String.eqb o "H"); intros E.
  - apply (deploy_loop_locations ship (fun i => (row, i)) column O).
    by replace (column + Z.of_nat 0) with column by lia.
  - apply (deploy_loop_locations ship (fun i => (i, column)) row O).
    by replace (row + Z.of_nat 0) with row by lia.
Qed.

(** [deploy_ship] for a run that lies on the board. *)
Lemma deploy_ship_on_board n sm ship length row column o :
  shape n (grid sm) →
  (∀ p, p ∈ run_cells row column o length → on_board (Z.of_nat n) p = true) →
  ∃ sm', deploy_ship sm ship length row column o = Some sm' ∧
    shape n (grid sm') ∧
    (∀ r c, 0 <= r < Z.of_nat n → 0 <= c < Z.of_nat n →
       Py.getitem2 (grid sm') r c =
         if covers row column length o (r, c)
         then Some "X" else Py.getitem2 (grid sm) r c) ∧
    ship_locations sm' =
      record_run ship (run_cells row column o length) (ship_locations sm) ∧
    opponent sm' = opponent sm.
Proof.
  intros Hs Hon.
  assert (Hcov : ∀ p, Py.contains coord_eqb p (run_cells row column o length)
                      = covers row column length o p)
    by (intros; apply contains_run_cells).
  unfold deploy_ship, run_cells in *. destruct (String.eqb o "H").
  - destruct (deploy_loop n ship (fun i => (row, i)) column O
                (Z.to_nat length) sm) as (sm' & E & Hs' & Hg & Hl & Ho);
      [done| |].
    { intros j Hj. apply Hon.
      apply (list_elem_of_fmap_2 (fun k => (row, column + Z.of_nat k))).
      apply elem_of_seq. lia. }
    replace (column + Z.of_nat 0) with column in E by lia.
    exists sm'. split; [exact E|]. split; [done|].
    split; [|split; [exact Hl|exact Ho]].
    intros r c Hr Hc. rewrite Hg by done. by rewrite Hcov.
  - destruct (deploy_loop n ship (fun i => (i, column)) row O
                (Z.to_nat length) sm) as (sm' & E & Hs' & Hg & Hl & Ho);
      [done| |].
    { intros j Hj. apply Hon.
      apply (list_elem_of_fmap_2 (fun k => (row + Z.of_nat k, column))).
      apply elem_of_seq. lia. }
    replace (row + Z.of_nat 0) with row in E by lia.
    exists sm'. split; [exact E|]. split; [done|].
    split; [|split; [exact Hl|exact Ho]].
    intros r c Hr Hc. rewrite Hg by done. by rewrite Hcov.
Qed.

Lemma positions_of_record_run ship cells sl :
  positions_of ship (record_run ship cells sl) = positions_of ship sl ++ cells.
Proof.
  unfold record_run. revert sl. induction cells as [|p cells IH]; intros sl; simpl.
  - by rewrite app_nil_r.
  - rewrite IH, positions_of_setdefault_append. by rewrite <- app_assoc.
Qed.

Lemma fleet_get_record_run_ne ship other cells sl :
  other ≠ ship → fleet_get other (record_run ship cells sl) = fleet_get other sl.
Proof.
  intros Hne. unfold record_run. revert sl.
  induction cells as [|p cells IH]; intros sl; simpl; [done|].
  by rewrite IH, fleet_get_setdefault_append_ne.
Qed.

(** X3: every orientation other than "H" is a vertical placement.  When the
    run lies on the board the call succeeds, marks exactly the cells
    (row, column) to (row + length - 1, column), leaves every other cell of
    the grid as it was, and appends the run in order to the ship's
    positions; the other ships keep theirs. *)
Theorem deploy_ship_vertical n sm ship length row column o :
  o ≠ "H" →
  shape n (grid sm) →
  0 <= column < Z.of_nat n → 0 <= row → row + length <= Z.of_nat n →
  ∃ sm', deploy_ship sm ship length row column o = Some sm' ∧
    shape n (grid sm') ∧
    (∀ r c, 0 <= r < Z.of_nat n → 0 <= c < Z.of_nat n →
       Py.getitem2 (grid sm') r c =
         if (c =? column) && (row <=? r) && (r <? row + length)
         then Some "X" else Py.getitem2 (grid sm) r c) ∧
    positions_of ship (ship_locations sm') =
      positions_of ship (ship_locations sm) ++
      map (fun k => (row + Z.of_nat k, column)) (seq 0 (Z.to_nat length)) ∧
    (∀ other, other ≠ ship →
       fleet_get other (ship_locations sm') = fleet_get other (ship_locations sm)) ∧
    opponent sm' = opponent sm.
Proof.
  intros Ho Hs Hc Hr Hfit.
  assert (Eo : String.eqb o "H" = false) by by apply String.eqb_neq.
  destruct (deploy_ship_on_board n sm ship length row column o)
    as (sm' & E & Hs' & Hg & Hl & Hopp); [done| |].
  { intros p Hp. unfold run_cells in Hp. rewrite Eo in Hp.
    apply list_elem_of_fmap in Hp as (k & -> & Hk). apply elem_of_seq in Hk.
    unfold on_board. simpl.
    destruct (Z.leb_spec 0 (row + Z.of_nat k)),
      (Z.ltb_spec (row + Z.of_nat k) (Z.of_nat n)),
      (Z.leb_spec 0 column), (Z.ltb_spec column (Z.of_nat n));
      simpl; try done; lia. }
  exists sm'. split; [exact E|]. split; [done|].
  split; [|split; [|split; [|exact Hopp]]].
  - intros r c Hr' Hc'. rewrite Hg by done. unfold covers. by rewrite Eo.
  - rewrite Hl, positions_of_record_run. unfold run_cells. by rewrite Eo.
  - intros other Hne. rewrite Hl. by apply fleet_get_record_run_ne.
Qed.

(** A Cruiser down the first column of the empty board. *)
Lemma deploy_ship_vertical_witness :
  ∃ sm', deploy_ship (new_ShipManager 8 "Player") "Cruiser" 3 0 0 "V" = Some sm' ∧
    Py.getitem2 (grid sm') 2 0 = Some "X" ∧
    Py.getitem2 (grid sm') 0 1 = Some " " ∧
    positions_of "Cruiser" (ship_locations sm') = [(0, 0); (1, 0); (2, 0)].
Proof.
  destruct (deploy_ship_vertical 8 (new_ShipManager 8 "Player")
              "Cruiser" 3 0 0 "V") as (sm' & E & _ & Hg & Hp & _).
  - done.
  - apply (shape_new_grid 8).
  - lia.
  - lia.
  - lia.
  - exists sm'. split; [exact E|].
    split; [by rewrite Hg by lia|].
    split; [by rewrite Hg by lia|].
    by rewrite Hp.
Defined.

(** ** deploy_ship off the grid *)

Lemma for_range_raises {St} (P : St → Prop) body start k k' (s : St) :
  (k' < k)%nat → P s →
  (∀ i s s', body i s = Some s' → P s → P s') →
  (∀ s, P s → body (start + Z.of_nat k') s = None) →
  Py.for_range start k body s = None.
Proof.
  revert start k' s. induction k as [|k IH]; intros start k' s Hk Hs Hpres Hnone;
    [lia|].
  simpl. destruct k' as [|k'].
  - replace (start + Z.of_nat 0) with start in Hnone by lia.
    by rewrite Hnone.
  - destruct (body start s) as [s1|] eqn:E1; [|done]. simpl.
    apply (IH (start + 1) k'); [lia|by eapply Hpres|done|].
    intros s2 Hs2.
    replace (start + 1 + Z.of_nat k') with (start + Z.of_nat (S k')) by lia.
    by apply Hnone.
Qed.

Lemma norm_index_lt n i k : Py.norm_index n i = Some k → (k < n)%nat.
Proof.
  unfold Py.norm_index.
  destruct (Z.leb_spec 0 i), (Z.ltb_spec i (Z.of_nat n)),
    (Z.leb_spec (- Z.of_nat n) i), (Z.ltb_spec i 0); simpl;
    intros E; inversion E; lia.
Qed.

Lemma setitem2_shape {A} n (m m' : list (list A)) r c v :
  shape n m → Py.setitem2 m r c v = Some m' → shape n m'.
Proof.
  intros [Hl Hall]. unfold Py.setitem2, Py.getitem, Py.setitem.
  destruct (Py.norm_index (length m) r) as [k|] eqn:Ek; [|done]. simpl.
  destruct (m !! k) as [row|] eqn:Erow; [|done]. simpl.
  destruct (Py.norm_index (length row) c) as [j|]; [|done]. simpl.
  intros E. inversion E; subst. split; [by rewrite length_insert|].
  apply Forall_insert; [done|]. rewrite length_insert.
  rewrite Forall_forall in Hall. apply Hall.
  by eapply list_elem_of_lookup_2.
Qed.

Lemma setitem_outside {A} (l : list A) i x :
  ¬ (- Z.of_nat (length l) <= i < Z.of_nat (length l)) → Py.setitem l i x = None.
Proof. intros H. unfold Py.setitem. by rewrite norm_index_outside. Qed.

Lemma setitem2_not_indexable {A} n (m : list (list A)) r c v :
  shape n m → indexable (Z.of_nat n) (r, c) = false →
  Py.setitem2 m r c v = None.
Proof.
  intros Hs Hi. unfold Py.setitem2.
  destruct (Py.getitem m r) as [row|] eqn:E; [|done]. simpl.
  assert (Hlen : length row = n).
  { destruct Hs as [_ Hall]. rewrite Forall_forall in Hall.
    apply Hall. by eapply getitem_elem_of. }
  rewrite (setitem_outside row c); [done|].
  rewrite Hlen. intros Hc.
  destruct (decide (- Z.of_nat n <= r < Z.of_nat n)) as [Hr|Hr].
  - unfold indexable in Hi. simpl in Hi.
    destruct (Z.leb_spec (- Z.of_nat n) r), (Z.ltb_spec r (Z.of_nat n)),
      (Z.leb_spec (- Z.of_nat n) c), (Z.ltb_spec c (Z.of_nat n));
      simpl in Hi; try done; lia.
  - rewrite getitem_outside in E; [done|]. by destruct Hs as [-> _].
Qed.

(** X4: [deploy_ship] checks nothing itself.  On a square grid, a placement
    one of whose cells has an index outside [[-n, n)] makes it raise
    [IndexError] (where [check_overlap] answers true). *)
Theorem deploy_ship_off_grid_raises n sm ship length row column o p :
  shape n (grid sm) →
  p ∈ run_cells row column o length →
  indexable (Z.of_nat n) p = false →
  deploy_ship sm ship length row column o = None.
Proof.
  intros Hs Hp Hi. unfold deploy_ship, run_cells in *.
  destruct (String.eqb o "H");
    apply list_elem_of_fmap in Hp as (k & -> & Hk); apply elem_of_seq in Hk;
    (apply (for_range_raises (fun s => shape n (grid s)) _ _ _ k);
     [lia|done| |]).
  - intros i s s' E Hsh. cbv beta in E.
    destruct (Py.setitem2 (grid s) row i "X") as [g|] eqn:Eg; [|done].
    simpl in E. inversion E; subst. simpl. by eapply setitem2_shape.
  - intros s Hsh. by rewrite (setitem2_not_indexable n).
  - intros i s s' E Hsh. cbv beta in E.
    destruct (Py.setitem2 (grid s) i column "X") as [g|] eqn:Eg; [|done].
    simpl in E. inversion E; subst. simpl. by eapply setitem2_shape.
  - intros s Hsh. by rewrite (setitem2_not_indexable n).
Qed.

(** The placement the unit test has [validate_placement] reject. *)
Lemma deploy_ship_off_grid_raises_witness :
  deploy_ship (new_ShipManager 8 "Player") "Cruiser" 3 0 6 "H" = None.
Proof.
  apply (deploy_ship_off_grid_raises 8 _ "Cruiser" 3 0 6 "H" (0, 8)).
  - apply (shape_new_grid 8).
  - cbn. repeat constructor.
  - reflexivity.
Defined.

(** ** Fleets that agree with their grid *)

Lemma contains_app p (l1 l2 : list Coord) :
  Py.contains coord_eqb p (l1 ++ l2) =
  Py.contains coord_eqb p l1 || Py.contains coord_eqb p l2.
Proof.
  induction l1 as [|q l1 IH]; simpl; [done|]. by rewrite IH, orb_assoc.
Qed.

Lemma ships_holding_setdefault_append ship p q sl :
  ships_holding p (setdefault_append ship q sl) =
  (ships_holding p sl +
   if coord_eqb q p && negb (Py.contains coord_eqb p (positions_of ship sl))
   then 1 else 0)%nat.
Proof.
  unfold positions_of. induction sl as [|[k ps] rest IH]; simpl.
  - rewrite orb_false_r, andb_true_r. by destruct (coord_eqb q p).
  - destruct (String.eqb k ship); simpl.
    + rewrite contains_app. simpl. rewrite orb_false_r.
      destruct (Py.contains coord_eqb p ps), (coord_eqb q p); simpl; lia.
    + rewrite IH. lia.
Qed.

Lemma ships_holding_record_run ship p cells sl :
  ships_holding p (record_run ship cells sl) =
  (ships_holding p sl +
   if Py.contains coord_eqb p cells
      && negb (Py.contains coord_eqb p (positions_of ship sl))
   then 1 else 0)%nat.
Proof.
  unfold record_run. revert sl.
  induction cells as [|q cells IH]; intros sl; simpl; [lia|].
  rewrite IH, ships_holding_setdefault_append, positions_of_setdefault_append,
    contains_app.
  simpl. rewrite orb_false_r.
  destruct (coord_eqb q p), (Py.contains coord_eqb p cells),
    (Py.contains coord_eqb p (positions_of ship sl)); simpl; lia.
Qed.

Lemma remaining_positions_setdefault_append ship q sl :
  remaining_positions (setdefault_append ship q sl) =
  S (remaining_positions sl).
Proof.
  induction sl as [|[k ps] rest IH]; simpl; [done|].
  destruct (String.eqb k ship); simpl.
  - rewrite length_app. simpl. lia.
  - rewrite IH. lia.
Qed.

Lemma remaining_positions_record_run ship cells sl :
  remaining_positions (record_run ship cells sl) =
  (remaining_positions sl + length cells)%nat.
Proof.
  unfold record_run. revert sl.
  induction cells as [|q cells IH]; intros sl; simpl; [lia|].
  rewrite IH, remaining_positions_setdefault_append. lia.
Qed.

Lemma length_run_cells row column o length :
  List.length (run_cells row column o length) = Z.to_nat length.
Proof.
  unfold run_cells. destruct (String.eqb o "H");
    by rewrite length_map, length_seq.
Qed.

Lemma validate_placement_on_board n length row column o p :
  0 <= row < n → 0 <= column < n →
  validate_placement n length row column o = true →
  p ∈ run_cells row column o length → on_board n p = true.
Proof.
  intros Hr Hc Hv Hp. apply validate_placement_fits in Hv.
  unfold run_cells in Hp. unfold on_board.
  destruct (String.eqb o "H");
    apply list_elem_of_fmap in Hp as (k & -> & Hk); apply elem_of_seq in Hk;
    simpl.
  - destruct (Z.leb_spec 0 row), (Z.ltb_spec row n),
      (Z.leb_spec 0 (column + Z.of_nat k)),
      (Z.ltb_spec (column + Z.of_nat k) n); simpl; try done; lia.
  - destruct (Z.leb_spec 0 (row + Z.of_nat k)),
      (Z.ltb_spec (row + Z.of_nat k) n),
      (Z.leb_spec 0 column), (Z.ltb_spec column n); simpl; try done; lia.
Qed.

Lemma on_board_bounds n p :
  on_board n p = true → 0 <= p.1 < n ∧ 0 <= p.2 < n.
Proof.
  unfold on_board.
  destruct (Z.leb_spec 0 p.1), (Z.ltb_spec p.1 n), (Z.leb_spec 0 p.2),
    (Z.ltb_spec p.2 n); simpl; try done; lia.
Qed.

Lemma fleet_ok_new n opponent : fleet_ok (Z.to_nat n) (new_ShipManager n opponent).
Proof.
  split; [apply shape_new_grid|]. simpl. split; [intros; lia|]. intros p Hp. lia.
Qed.

(** A placement the two checks accept, with its origin on the board, is
    deployed without an exception and keeps the fleet in agreement with
    the grid. *)
Lemma legal_deploy_fleet_ok n sm ship length row column o :
  fleet_ok n sm →
  0 <= row < Z.of_nat n → 0 <= column < Z.of_nat n →
  validate_placement (Z.of_nat n) length row column o = true →
  check_overlap (grid sm) row column o length = false →
  ∃ sm', deploy_ship sm ship length row column o = Some sm' ∧
    fleet_ok n sm' ∧
    ship_locations sm' =
      record_run ship (run_cells row column o length) (ship_locations sm).
Proof.
  intros (Hs & Hone & Hheld) Hr Hc Hv Hov.
  rewrite (check_overlap_spec n) in Hov by done.
  assert (Hfree : ∀ p, Py.contains coord_eqb p (run_cells row column o length)
                       = true → ships_holding p (ship_locations sm) = O).
  { intros p Hp. apply contains_elem_of in Hp.
    destruct (ships_holding p (ship_locations sm)) as [|k] eqn:Ek; [done|].
    destruct (Hheld p) as [_ Hship]; [lia|].
    assert (existsb (ship_at (grid sm)) (run_cells row column o length) = true);
      [|congruence].
    apply existsb_exists. exists p. split; [by apply list_elem_of_In|done]. }
  destruct (deploy_ship_on_board n sm ship length row column o)
    as (sm' & E & Hs' & Hg & Hl & _); [done| |].
  { intros p Hp.
    by apply (validate_placement_on_board (Z.of_nat n) length row column o). }
  exists sm'. split; [exact E|]. split; [|exact Hl].
  split; [done|]. rewrite Hl. split.
  - intros p. rewrite ships_holding_record_run.
    destruct (Py.contains coord_eqb p (run_cells row column o length)) eqn:Ep;
      simpl.
    + rewrite (Hfree p Ep).
      destruct (negb (Py.contains coord_eqb p
                        (positions_of ship (ship_locations sm)))); lia.
    + specialize (Hone p). lia.
  - intros p. rewrite ships_holding_record_run.
    destruct (Py.contains coord_eqb p (run_cells row column o length)) eqn:Ep;
      simpl; intros Hp.
    + assert (Hon : on_board (Z.of_nat n) p = true).
      { apply contains_elem_of in Ep.
        by apply (validate_placement_on_board (Z.of_nat n) length row column o). }
      split; [done|]. apply on_board_bounds in Hon as [? ?].
      unfold ship_at. rewrite Hg by done.
      rewrite contains_run_cells in Ep. destruct p. simpl in *. by rewrite Ep.
    + destruct (Hheld p) as [Hon Hship]; [lia|]. split; [done|].
      pose proof Hon as [? ?]%on_board_bounds.
      unfold ship_at in *. rewrite Hg by done.
      by destruct (covers row column length o (p.1, p.2)).
Qed.

(** X5: a placement accepted by [validate_placement] and [check_overlap],
    with its origin on the board, is deployed without an exception, and the
    fleet still agrees with the grid: no coordinate is held by two ships,
    and every held coordinate is a ship cell of the board. *)
Theorem legal_placement_keeps_fleet n sm ship length row column o :
  fleet_ok n sm →
  0 <= row < Z.of_nat n → 0 <= column < Z.of_nat n →
  validate_placement (Z.of_nat n) length row column o = true →
  check_overlap (grid sm) row column o length = false →
  ∃ sm', deploy_ship sm ship length row column o = Some sm' ∧ fleet_ok n sm'.
Proof.
  intros Hok Hr Hc Hv Hov.
  destruct (legal_deploy_fleet_ok n sm ship length row column o)
    as (sm' & E & Hok' & _); eauto.
Qed.

Lemma legal_placement_keeps_fleet_witness :
  ∃ sm', deploy_ship (new_ShipManager 8 "Player") "Destroyer" 2 0 0 "H" = Some sm' ∧
    fleet_ok 8 sm'.
Proof.
  apply (legal_placement_keeps_fleet 8 (new_ShipManager 8 "Player")).
  - apply (fleet_ok_new 8).
  - lia.
  - lia.
  - reflexivity.
  - reflexivity.
Defined.

(** ** The setup loop *)

Lemma for_each_preserves {A St} (I : list A → St → Prop) body (l : list A)
  (s s' : St) :
  I [] s →
  (∀ pre x s s', I pre s → body x s = Some s' → I (pre ++ [x]) s') →
  Py.for_each l body s = Some s' → I l s'.
Proof.
  intros H0 Hstep.
  cut (∀ pre s, I pre s → Py.for_each l body s = Some s' → I (pre ++ l) s').
  { intros H. apply (H [] s H0). }
  induction l as [|x l IH]; intros pre s1 H1 E; simpl in E.
  - inversion E; subst. by rewrite app_nil_r.
  - destruct (body x s1) as [s2|] eqn:E2; [|done]. simpl in E.
    replace (pre ++ x :: l) with ((pre ++ [x]) ++ l)
      by (by rewrite <- app_assoc).
    eapply IH; [|exact E]. eauto.
Qed.

(** One ship of the setup loop: the first attempt that passes both checks
    is deployed; the attempts before it are dropped. *)
Lemma place_ship_spec n attempts sm ship length sm' rest :
  fleet_ok n sm →
  Forall (attempt_on_board (Z.of_nat n)) attempts →
  place_ship (Z.of_nat n) attempts sm ship length = Some (sm', rest) →
  fleet_ok n sm' ∧
  Forall (attempt_on_board (Z.of_nat n)) rest ∧
  (∃ used, attempts = used ++ rest) ∧
  remaining_positions (ship_locations sm') =
    (remaining_positions (ship_locations sm) + Z.to_nat length)%nat.
Proof.
  intros Hok Hall. revert rest.
  induction Hall as [|[[row column] o] attempts [Hr Hc] Hall IH]; intros rest E;
    simpl in E; [done|]. simpl in Hr, Hc.
  assert (Hskip : place_ship (Z.of_nat n) attempts sm ship length
                    = Some (sm', rest) →
    fleet_ok n sm' ∧ Forall (attempt_on_board (Z.of_nat n)) rest ∧
    (∃ used, (row, column, o) :: attempts = used ++ rest) ∧
    remaining_positions (ship_locations sm') =
      (remaining_positions (ship_locations sm) + Z.to_nat length)%nat).
  { intros E'. specialize (IH rest E').
    destruct IH as (K1 & K2 & [used K3] & K4).
    split; [done|]. split; [done|]. split; [|done].
    exists ((row, column, o) :: used). by rewrite K3. }
  destruct (validate_placement (Z.of_nat n) length row column o) eqn:Ev;
    [|by apply Hskip].
  destruct (check_overlap (grid sm) row column o length) eqn:Eo;
    simpl in E; [by apply Hskip|].
  destruct (legal_deploy_fleet_ok n sm ship length row column o)
    as (sm1 & E1 & Hok1 & Hl1); try done.
  rewrite E1 in E. simpl in E. inversion E; subst.
  split; [done|]. split; [done|]. split; [by exists [(row, column, o)]|].
  by rewrite Hl1, remaining_positions_record_run, length_run_cells.
Qed.

(** X6: [deploy_all_ships], fed attempts whose origins are on the board (as
    the random draws and the validated input are), leaves a fleet that
    agrees with the grid, in which no two ships share a coordinate, and to
    which every ship of [SHIP_TYPES] has added as many positions as its
    length; it consumes a prefix of the attempts and leaves the attack
    board alone. *)
Theorem deploy_all_ships_fleet n ships attempts player player' rest :
  fleet_ok n (ship_manager player) →
  Forall (attempt_on_board (Z.of_nat n)) attempts →
  deploy_all_ships (Z.of_nat n) ships attempts player = Some (player', rest) →
  fleet_ok n (ship_manager player') ∧
  remaining_positions (ship_locations (ship_manager player')) =
    (remaining_positions (ship_locations (ship_manager player)) +
     Z.to_nat (sum_list (fun s => Z.of_nat (Z.to_nat s.2)) ships))%nat ∧
  (∃ used, attempts = used ++ rest) ∧
  attack_board player' = attack_board player.
Proof.
  intros Hok Hall. unfold deploy_all_ships. intros E.
  destruct (Py.for_each ships _ _) as [[sm rest']|] eqn:Ef; [|done].
  simpl in E. inversion E; subst. clear E.
  apply (for_each_preserves
    (fun (pre : list (string * Z)) (st : ShipManager * list Attempt) =>
       fleet_ok n st.1 ∧
       Forall (attempt_on_board (Z.of_nat n)) st.2 ∧
       (∃ used, attempts = used ++ st.2) ∧
       remaining_positions (ship_locations st.1) =
         (remaining_positions (ship_locations (ship_manager player)) +
          Z.to_nat (sum_list (fun s => Z.of_nat (Z.to_nat s.2)) pre))%nat))
    in Ef.
  - destruct Ef as (H1 & _ & H3 & H4). simpl in *.
    split; [exact H1|]. split; [exact H4|]. split; [exact H3|done].
  - simpl. split; [done|]. split; [done|]. split; [by exists []|lia].
  - intros pre [ship length] [sm1 att1] [sm2 att2]
      (H1 & H2 & [used ->] & H4) Ep. simpl in *.
    destruct (place_ship_spec n att1 sm1 ship length sm2 att2 H1 H2 Ep)
      as (K1 & K2 & [used' ->] & K4).
    split; [done|]. split; [done|].
    split; [exists (used ++ used'); by rewrite app_assoc|].
    rewrite K4, H4, sum_list_app. simpl.
    assert (0 <= sum_list (fun s => Z.of_nat (Z.to_nat s.2)) pre)
      by (apply sum_list_nonneg; intros; lia).
    lia.
Qed.

(** The setup in which the first draw for the Carrier leaves the board and
    the first draw for the Battleship crosses the Carrier. *)
Lemma deploy_all_ships_fleet_witness :
  ∃ player' rest,
    deploy_all_ships 8 fleet5 setup_attempts (new_BasePlayer 8 "Player")
      = Some (player', rest) ∧
    rest = [(1, 1, "V")] ∧
    fleet_ok 8 (ship_manager player') ∧
    remaining_positions (ship_locations (ship_manager player')) = 17%nat.
Proof.
  destruct (deploy_all_ships 8 fleet5 setup_attempts (new_BasePlayer 8 "Player"))
    as [[player' rest]|] eqn:E; [|by vm_compute in E].
  destruct (deploy_all_ships_fleet 8 fleet5 setup_attempts
              (new_BasePlayer 8 "Player") player' rest
              (fleet_ok_new 8 "Computer")) as (Hok & Hrem & _ & _); [|exact E|].
  - repeat (constructor; [unfold attempt_on_board; simpl; lia|]). constructor.
  - exists player', rest. split; [reflexivity|].
    split; [vm_compute in E; by inversion E|].
    split; [exact Hok|]. rewrite Hrem. reflexivity.
Defined.

(** X7: the setup loop raises nothing.  On a square grid, with attempts
    whose origins are on the board, the loop for one ship is left without a
    placement only when every attempt was turned down by
    [validate_placement] or by [check_overlap]. *)
Theorem place_ship_none_all_rejected n attempts sm ship length :
  shape n (grid sm) →
  Forall (attempt_on_board (Z.of_nat n)) attempts →
  place_ship (Z.of_nat n) attempts sm ship length = None →
  Forall (fun a : Attempt =>
            validate_placement (Z.of_nat n) length a.1.1 a.1.2 a.2 = false ∨
            check_overlap (grid sm) a.1.1 a.1.2 a.2 length = true) attempts.
Proof.
  intros Hs Hall.
  induction Hall as [|[[row column] o] attempts [Hr Hc] Hall IH]; intros E;
    simpl in *; [constructor|].
  destruct (validate_placement (Z.of_nat n) length row column o) eqn:Ev;
    [|constructor; [by left|by apply IH]].
  destruct (check_overlap (grid sm) row column o length) eqn:Eo; simpl in E;
    [constructor; [by right|by apply IH]|].
  destruct (deploy_ship_on_board n sm ship length row column o)
    as (sm1 & E1 & _); [done| |].
  { intros p Hp.
    by apply (validate_placement_on_board (Z.of_nat n) length row column o). }
  by rewrite E1 in E.
Qed.

(** Two draws for a Carrier on the empty board, both leaving the board. *)
Lemma place_ship_none_all_rejected_witness :
  Forall (fun a : Attempt =>
            validate_placement 8 5 a.1.1 a.1.2 a.2 = false ∨
            check_overlap (new_grid 8) a.1.1 a.1.2 a.2 5 = true)
    [(0, 6, "H"); (4, 0, "V")].
Proof.
  apply (place_ship_none_all_rejected 8 _ (new_ShipManager 8 "Player")
           "Carrier" 5).
  - apply (shape_new_grid 8).
  - repeat (constructor; [unfold attempt_on_board; simpl; lia|]). constructor.
  - reflexivity.
Defined.

(** ** Hits *)

Lemma contains_remove_first p q (ps : list Coord) :
  Py.contains coord_eqb p (Py.remove_first coord_eqb q ps) = true →
  Py.contains coord_eqb p ps = true.
Proof.
  induction ps as [|x ps IH]; simpl; [done|].
  destruct (coord_eqb x q).
  - intros ->. by rewrite orb_true_r.
  - simpl. rewrite !orb_true_iff. intros [H|H]; [by left|right; by apply IH].
Qed.

Lemma length_remove_first q (ps : list Coord) :
  Py.contains coord_eqb q ps = true →
  S (length (Py.remove_first coord_eqb q ps)) = length ps.
Proof.
  induction ps as [|x ps IH]; simpl; [done|].
  destruct (coord_eqb x q); simpl; [done|]. intros H. by rewrite IH.
Qed.

Lemma ships_holding_check_sunk_items p row column sl :
  (ships_holding p (check_sunk_items row column sl) <= ships_holding p sl)%nat.
Proof.
  induction sl as [|[k ps] rest IH]; simpl; [lia|].
  destruct (Py.contains coord_eqb (row, column) ps) eqn:Ec.
  - destruct (Py.remove_first coord_eqb (row, column) ps) as [|x ps'] eqn:Er.
    + destruct (Py.contains coord_eqb p ps); lia.
    + cbn [ships_holding]. rewrite <- Er.
      destruct (Py.contains coord_eqb p
                  (Py.remove_first coord_eqb (row, column) ps)) eqn:E1.
      * rewrite (contains_remove_first _ _ _ E1). lia.
      * destruct (Py.contains coord_eqb p ps); lia.
  - cbn [ships_holding]. lia.
Qed.

(** X8: registering a hit, at any coordinate, never writes the grid and
    never makes a coordinate held by more ships than before; so it keeps a
    fleet in agreement with its grid. *)
Theorem check_sunk_ship_keeps_fleet n sm row column :
  grid (check_sunk_ship sm row column) = grid sm ∧
  (∀ p, ships_holding p (ship_locations (check_sunk_ship sm row column))
          <= ships_holding p (ship_locations sm))%nat ∧
  (fleet_ok n sm → fleet_ok n (check_sunk_ship sm row column)).
Proof.
  split; [done|]. split.
  - intros p. apply ships_holding_check_sunk_items.
  - intros (Hs & Hone & Hheld). split; [done|]. simpl. split.
    + intros p. pose proof (ships_holding_check_sunk_items p row column
                              (ship_locations sm)). specialize (Hone p). lia.
    + intros p Hp. apply Hheld.
      pose proof (ships_holding_check_sunk_items p row column
                    (ship_locations sm)).
      lia.
Qed.

(** The Destroyer deployed at the top left corner, hit at (0, 0): its other
    cell is still held, and the fleet still agrees with the grid. *)
Lemma check_sunk_ship_keeps_fleet_witness :
  ∃ sm, deploy_ship (new_ShipManager 8 "Player") "Destroyer" 2 0 0 "H" = Some sm ∧
    fleet_ok 8 (check_sunk_ship sm 0 0) ∧
    ship_locations sm = [("Destroyer", [(0, 0); (0, 1)])] ∧
    ship_locations (check_sunk_ship sm 0 0) = [("Destroyer", [(0, 1)])].
Proof.
  destruct (legal_deploy_fleet_ok 8 (new_ShipManager 8 "Player")
              "Destroyer" 2 0 0 "H") as (sm & E & Hok & Hl).
  - apply (fleet_ok_new 8).
  - lia.
  - lia.
  - reflexivity.
  - reflexivity.
  - exists sm. split; [exact E|].
    destruct (check_sunk_ship_keeps_fleet 8 sm 0 0) as (_ & _ & Hkeep).
    split; [exact (Hkeep Hok)|].
    split; [exact Hl|]. simpl. rewrite Hl. reflexivity.
Defined.

(** X9: a hit never adds a position, and a hit at a coordinate that exactly
    one ship holds takes exactly one position out of the fleet. *)
Theorem check_sunk_ship_remaining sm row column :
  (remaining_positions (ship_locations (check_sunk_ship sm row column))
     <= remaining_positions (ship_locations sm))%nat ∧
  (ships_holding (row, column) (ship_locations sm) = 1%nat →
   S (remaining_positions (ship_locations (check_sunk_ship sm row column)))
     = remaining_positions (ship_locations sm)).
Proof.
  simpl. induction (ship_locations sm) as [|[k ps] rest [IH1 IH2]]; simpl.
  - split; [lia|done].
  - destruct (Py.contains coord_eqb (row, column) ps) eqn:Ec.
    + pose proof (length_remove_first _ _ Ec) as Hlen.
      destruct (Py.remove_first coord_eqb (row, column) ps) as [|x ps'] eqn:Er.
      * simpl in Hlen. split; [lia|]. intros _. lia.
      * cbn [remaining_positions]. split; [lia|]. intros H.
        assert (H0 : ships_holding (row, column) rest = O) by lia.
        rewrite (check_sunk_items_absent _ _ _ H0). lia.
    + cbn [remaining_positions]. split; [lia|]. intros H.
      specialize (IH2 H). lia.
Qed.

(** The Destroyer of the unit test, hit at its second cell: one position
    less. *)
Lemma check_sunk_ship_remaining_witness :
  let sm := mkShipManager (new_grid 8)
              [("Destroyer", [(0, 0); (0, 1)]); ("Cruiser", [(2, 0)])] "Player" in
  S (remaining_positions (ship_locations (check_sunk_ship sm 0 1))) = 3%nat.
Proof.
  intros sm. destruct (check_sunk_ship_remaining sm 0 1) as [_ H].
  rewrite H; reflexivity.
Defined.

(** ** Deploying and sinking *)

Lemma setdefault_append_fresh ship q sl :
  fleet_get ship sl = None → setdefault_append ship q sl = sl ++ [(ship, [q])].
Proof.
  induction sl as [|[k ps] rest IH]; simpl; [done|].
  destruct (String.eqb k ship); [done|]. intros H. by rewrite IH.
Qed.

Lemma setdefault_append_last ship q ps sl :
  fleet_get ship sl = None →
  setdefault_append ship q (sl ++ [(ship, ps)]) = sl ++ [(ship, ps ++ [q])].
Proof.
  induction sl as [|[k ps'] rest IH]; simpl.
  - by rewrite String.eqb_refl.
  - destruct (String.eqb k ship); [done|]. intros H. by rewrite IH.
Qed.

Lemma record_run_last ship cells ps sl :
  fleet_get ship sl = None →
  record_run ship cells (sl ++ [(ship, ps)]) = sl ++ [(ship, ps ++ cells)].
Proof.
  intros Hf. unfold record_run. revert ps.
  induction cells as [|q cells IH]; intros ps; simpl.
  - by rewrite app_nil_r.
  - rewrite setdefault_append_last by done. rewrite IH.
    by rewrite <- app_assoc.
Qed.

Lemma record_run_fresh ship q cells sl :
  fleet_get ship sl = None →
  record_run ship (q :: cells) sl = sl ++ [(ship, q :: cells)].
Proof.
  intros Hf. unfold record_run. simpl.
  rewrite setdefault_append_fresh by done.
  by apply record_run_last.
Qed.

Lemma check_sunk_items_app row column sl t :
  ships_holding (row, column) sl = O →
  check_sunk_items row column (sl ++ t) = sl ++ check_sunk_items row column t.
Proof.
  induction sl as [|[k ps] rest IH]; simpl; [done|].
  destruct (Py.contains coord_eqb (row, column) ps); [done|].
  intros H. by rewrite IH.
Qed.

Lemma ship_locations_hit_all sm cells :
  ship_locations (hit_all sm cells) =
  fold_left (fun sl p => check_sunk_items p.1 p.2 sl) cells (ship_locations sm).
Proof.
  unfold hit_all. revert sm. induction cells as [|p cells IH]; intros sm; simpl;
    [done|]. by rewrite IH.
Qed.

Lemma sink_last_ship ship cells sl :
  (∀ p, p ∈ cells → ships_holding p sl = O) →
  cells ≠ [] →
  fold_left (fun sl p => check_sunk_items p.1 p.2 sl) cells
    (sl ++ [(ship, cells)]) = sl.
Proof.
  induction cells as [|[r c] cells IH]; intros Hfree Hne; [done|].
  cbn [fold_left fst snd].
  rewrite check_sunk_items_app by (apply Hfree; left).
  cbn [check_sunk_items Py.contains Py.remove_first].
  rewrite coord_eqb_refl. cbn [orb].
  destruct cells as [|q cells].
  - simpl. by rewrite app_nil_r.
  - cbn [check_sunk_items]. apply IH; [|done].
    intros p Hp. apply Hfree. by right.
Qed.

(** X10: deploying a ship under a new name, over coordinates no ship
    holds, and then registering a hit on every cell of its run, in order,
    gives back the fleet there was before: the ship's entry is deleted with
    its last position and no other entry is touched. *)
Theorem deploy_then_sink_restores sm ship length row column o sm' :
  fleet_get ship (ship_locations sm) = None →
  (∀ p, p ∈ run_cells row column o length →
        ships_holding p (ship_locations sm) = O) →
  deploy_ship sm ship length row column o = Some sm' →
  ship_locations (hit_all sm' (run_cells row column o length)) =
    ship_locations sm.
Proof.
  intros Hfresh Hfree E. rewrite ship_locations_hit_all.
  rewrite (deploy_ship_locations _ _ _ _ _ _ _ E).
  destruct (run_cells row column o length) as [|q cells] eqn:Er; [done|].
  rewrite record_run_fresh by done.
  by apply sink_last_ship.
Qed.

(** The scenario of the unit test: the Destroyer deployed on the empty
    board, then hit at (0, 0) and at (0, 1). *)
Lemma deploy_then_sink_restores_witness :
  ∃ sm', deploy_ship (new_ShipManager 8 "Player") "Destroyer" 2 0 0 "H" = Some sm' ∧
    ship_locations (hit_all sm' [(0, 0); (0, 1)]) = [].
Proof.
  destruct (deploy_ship (new_ShipManager 8 "Player") "Destroyer" 2 0 0 "H")
    as [sm'|] eqn:E; [|by vm_compute in E].
  exists sm'. split; [reflexivity|].
  apply (deploy_then_sink_restores (new_ShipManager 8 "Player")
           "Destroyer" 2 0 0 "H" sm'); [reflexivity| |exact E].
  intros p _. reflexivity.
Defined.

Lemma all_ships_sunk_positions ship sm :
  positions_of ship (ship_locations sm) ≠ [] → all_ships_sunk sm = false.
Proof.
  unfold all_ships_sunk, positions_of.
  induction (ship_locations sm) as [|[k ps] rest IH]; simpl; [done|].
  destruct (String.eqb k ship); simpl.
  - intros H. by destruct ps.
  - intros H. rewrite (IH H). by destruct ps.
Qed.

(** X11: after a successful [deploy_ship] of length at least one,
    [all_ships_sunk] answers false, whatever the fleet held before. *)
Theorem deploy_ship_not_all_sunk sm ship length row column o sm' :
  1 <= length →
  deploy_ship sm ship length row column o = Some sm' →
  all_ships_sunk sm' = false.
Proof.
  intros Hl E. apply (all_ships_sunk_positions ship).
  rewrite (deploy_ship_locations _ _ _ _ _ _ _ E), positions_of_record_run.
  pose proof (length_run_cells row column o length) as Hlen.
  destruct (run_cells row column o length); [simpl in Hlen; lia|].
  by destruct (positions_of ship (ship_locations sm)).
Qed.

Lemma deploy_ship_not_all_sunk_witness :
  ∃ sm', deploy_ship (new_ShipManager 8 "Player") "Destroyer" 2 0 0 "H" = Some sm' ∧
    all_ships_sunk sm' = false.
Proof.
  destruct (deploy_ship (new_ShipManager 8 "Player") "Destroyer" 2 0 0 "H")
    as [sm'|] eqn:E; [|by vm_compute in E].
  exists sm'. split; [reflexivity|].
  apply (deploy_ship_not_all_sunk (new_ShipManager 8 "Player")
           "Destroyer" 2 0 0 "H" sm'); [lia|exact E].
Defined.

(** ** A whole computer turn *)

Lemma expected_weight_attacked n ships (g : Grid) p :
  cell_attacked g p = true → expected_weight n ships g p = 0.
Proof. intros H. unfold expected_weight. by rewrite H. Qed.

Lemma expected_weight_positive n ships (g : Grid) p :
  cell_attacked g p = false → 1 <= expected_weight (Z.of_nat n) ships g p.
Proof.
  intros H. unfold expected_weight. rewrite H.
  assert (0 <= sum_list (fun '(_, length) =>
            placements_through (Z.of_nat n) g length p) ships); [|lia].
  apply sum_list_nonneg. intros [ship length]. apply placements_through_nonneg.
Qed.

(** The probability mode, with what it leaves in the map. *)
Lemma probability_target_spec n ships reset self opp :
  (0 < n)%nat →
  shape n (attack_grid self) → shape n (probability_map self) →
  ∃ p pm',
    probability_target (Z.of_nat n) ships reset self opp =
      Some (p, set_probability_map
                 (if reset then set_hunt self None [] None else self) pm') ∧
    shape n pm' ∧
    on_board (Z.of_nat n) p = true ∧
    (∀ r c, 0 <= r < Z.of_nat n → 0 <= c < Z.of_nat n →
       Py.getitem2 pm' r c =
         Some (expected_weight (Z.of_nat n) ships (attack_grid self) (r, c))) ∧
    (∀ r c, 0 <= r < Z.of_nat n → 0 <= c < Z.of_nat n →
       expected_weight (Z.of_nat n) ships (attack_grid self) (r, c)
         <= expected_weight (Z.of_nat n) ships (attack_grid self) p ∧
       (r < p.1 ∨ (r = p.1 ∧ c < p.2) →
        expected_weight (Z.of_nat n) ships (attack_grid self) (r, c)
          < expected_weight (Z.of_nat n) ships (attack_grid self) p)).
Proof.
  intros Hn Hg Hs. unfold probability_target.
  set (self0 := if reset then set_hunt self None [] None else self).
  assert (Eg0 : attack_grid self0 = attack_grid self)
    by (unfold self0; by destruct reset).
  destruct (update_probability_map_weights n ships self0 opp)
    as (pm' & E & Hs' & Hw);
    [by rewrite Eg0|unfold self0; by destruct reset|].
  rewrite E. simpl mbind. rewrite Eg0 in Hw.
  destruct (argmax_index_spec n pm' Hn Hs')
    as ([pr pc] & w & Ep & Hr & Hc & Hpw & Hmax).
  rewrite Ep. simpl mbind. simpl in *.
  exists (pr, pc), pm'. split; [done|]. split; [done|].
  split. { unfold on_board. simpl.
           destruct (Z.leb_spec 0 pr), (Z.ltb_spec pr (Z.of_nat n)),
             (Z.leb_spec 0 pc), (Z.ltb_spec pc (Z.of_nat n));
             simpl; try done; lia. }
  split; [exact Hw|].
  rewrite Hw in Hpw by done. inversion Hpw as [Ew]. clear Hpw.
  intros r c Hr' Hc'. destruct (Hmax r c Hr' Hc') as (w' & Ew' & Hle & Hlt).
  rewrite Hw in Ew' by done. inversion Ew'; subst. by split.
Qed.

Lemma filter_on_board_Forall n (g : Grid) l :
  Forall (fun p => on_board n p = true)
    (List.filter (fun p => on_board n p && negb (cell_attacked g p)) l).
Proof.
  apply Forall_forall. intros p Hp. apply list_elem_of_In in Hp.
  apply filter_In in Hp as [_ Hp]. by apply andb_prop in Hp as [? _].
Qed.

(** The selection of a turn in a well-formed state. *)
Lemma select_target_spec n ships rnd self opp :
  (0 < n)%nat → wf_computer n self →
  ∃ p self1,
    select_target (Z.of_nat n) ships rnd self opp = Some (p, self1) ∧
    on_board (Z.of_nat n) p = true ∧
    attack_grid self1 = attack_grid self ∧
    base self1 = base self ∧
    wf_computer n self1 ∧
    (hit_stack self = [] →
     (∃ q, on_board (Z.of_nat n) q = true ∧
           cell_attacked (attack_grid self) q = false) →
     cell_attacked (attack_grid self) p = false).
Proof.
  intros Hn (Hg & Hs & Hst). unfold select_target.
  destruct (hit_stack self) as [|q rest] eqn:Eh.
  - assert (Hprob : ∀ reset,
      ∃ p self1,
        probability_target (Z.of_nat n) ships reset self opp = Some (p, self1) ∧
        on_board (Z.of_nat n) p = true ∧
        attack_grid self1 = attack_grid self ∧ base self1 = base self ∧
        wf_computer n self1 ∧
        (([] : list Coord) = [] →
         (∃ q, on_board (Z.of_nat n) q = true ∧
               cell_attacked (attack_grid self) q = false) →
         cell_attacked (attack_grid self) p = false)).
    { intros reset.
      destruct (probability_target_spec n ships reset self opp Hn Hg Hs)
        as (p & pm' & E & Hs' & Hon & _ & Hmax).
      exists p, (set_probability_map
                   (if reset then set_hunt self None [] None else self) pm').
      split; [exact E|]. split; [exact Hon|].
      split; [by destruct reset|]. split; [by destruct reset|].
      split.
      { split; [by destruct reset|]. split; [done|].
        destruct reset; simpl; [constructor|by rewrite Eh]. }
      intros _ (q & Hq & Hfree).
      destruct (cell_attacked (attack_grid self) p) eqn:Ea; [|done].
      apply on_board_bounds in Hq as [Hq1 Hq2].
      destruct (Hmax q.1 q.2 Hq1 Hq2) as [Hle _].
      rewrite (expected_weight_attacked _ _ _ p Ea) in Hle.
      pose proof (expected_weight_positive n ships (attack_grid self)
                    (q.1, q.2)) as Hpos.
      destruct q as [q1 q2]. simpl in *. specialize (Hpos Hfree). lia. }
    destruct (last_hit self) as [[row column]|]; [|by apply Hprob].
    rewrite (filter_moves_spec n) by done. simpl mbind.
    destruct (List.filter _ _) as [|m ms] eqn:Em; [by apply Hprob|].
    destruct (choice_elem_of rnd (m :: ms)) as (p & Ep & Hp); [done|].
    rewrite Ep. simpl. exists p, self.
    rewrite <- Em in Hp. apply list_elem_of_In, filter_In in Hp as [_ Hp].
    apply andb_prop in Hp as [Hon Hfree].
    split; [done|]. split; [done|]. split; [done|]. split; [done|].
    split; [split; [done|split; [done|by rewrite Eh]]|].
    intros _ _. by apply negb_true_iff.
  - inversion Hst as [|? ? Hq Hrest]; subst.
    exists q, (set_hunt self (last_hit self) rest (direction self)).
    split; [done|]. split; [done|]. split; [done|]. split; [done|].
    split; [by split|]. done.
Qed.

(** The attack of a turn on a cell that holds no ship. *)
Lemma process_attack_miss n self opp row column :
  shape n (attack_grid self) →
  on_board (Z.of_nat n) (row, column) = true →
  shape n (grid (ship_manager opp)) →
  ship_at (grid (ship_manager opp)) (row, column) = false →
  ∃ g, Py.setitem2 (attack_grid self) row column "-" = Some g ∧
    process_attack (Z.of_nat n) self opp row column =
      Some (set_attack_grid self g, opp).
Proof.
  intros Hg Hon Ho Hship. apply on_board_bounds in Hon as [Hr Hc]. simpl in *.
  destruct (getitem2_is_Some n (grid (ship_manager opp)) row column)
    as [cell Ec]; [done|done|done|].
  rewrite (ship_at_getitem2 _ _ _ _ Ec) in Hship.
  destruct (setitem2_nonneg n (attack_grid self) row column "-")
    as (g & Eg & _); [done|done|done|].
  exists g. split; [done|].
  unfold process_attack. rewrite Ec. simpl mbind. rewrite Hship.
  by rewrite Eg.
Qed.

(** The attack of a turn on a ship cell. *)
Lemma process_attack_hit n self opp row column :
  shape n (attack_grid self) →
  on_board (Z.of_nat n) (row, column) = true →
  shape n (grid (ship_manager opp)) →
  ship_at (grid (ship_manager opp)) (row, column) = true →
  ∃ g new d,
    Py.setitem2 (attack_grid self) row column "X" = Some g ∧
    process_attack (Z.of_nat n) self opp row column =
      Some (set_hunt (set_attack_grid self g) (Some (row, column))
              (hit_stack self ++ new) d,
            set_ship_manager opp
              (check_sunk_ship (ship_manager opp) row column)) ∧
    Forall (fun p => on_board (Z.of_nat n) p = true) new.
Proof.
  intros Hg Hon Ho Hship. apply on_board_bounds in Hon as [Hr Hc]. simpl in *.
  destruct (getitem2_is_Some n (grid (ship_manager opp)) row column)
    as [cell Ec]; [done|done|done|].
  rewrite (ship_at_getitem2 _ _ _ _ Ec) in Hship.
  destruct (setitem2_nonneg n (attack_grid self) row column "X")
    as (g & Eg & Hsg & _); [done|done|done|].
  unfold process_attack. rewrite Ec. simpl mbind. rewrite Hship.
  rewrite Eg. simpl.
  destruct (last_hit self) as [[lr lc]|] eqn:El.
  - rewrite (filter_moves_spec n) by done. simpl.
    eexists g, _, _. split; [done|]. split; [reflexivity|].
    apply filter_on_board_Forall.
  - simpl. exists g, [], (direction self).
    split; [done|]. rewrite app_nil_r. split; [done|constructor].
Qed.

(** A whole turn in a well-formed state. *)
Lemma take_turn_spec n ships rnd self opp :
  (0 < n)%nat → wf_computer n self → shape n (grid (ship_manager opp)) →
  ∃ p self1 g self' opp',
    select_target (Z.of_nat n) ships rnd self opp = Some (p, self1) ∧
    take_turn (Z.of_nat n) ships rnd self opp = Some (self', opp') ∧
    on_board (Z.of_nat n) p = true ∧
    Py.setitem2 (attack_grid self) p.1 p.2
      (if ship_at (grid (ship_manager opp)) p then "X" else "-") = Some g ∧
    attack_grid self' = g ∧
    base self' = base (set_attack_grid self g) ∧
    probability_map self' = probability_map self1 ∧
    shape n (probability_map self') ∧
    Forall (fun p => on_board (Z.of_nat n) p = true) (hit_stack self') ∧
    opp' = (if ship_at (grid (ship_manager opp)) p
            then set_ship_manager opp
                   (check_sunk_ship (ship_manager opp) p.1 p.2)
            else opp).
Proof.
  intros Hn Hwf Ho.
  destruct (select_target_spec n ships rnd self opp Hn Hwf)
    as ([row column] & self1 & Es & Hon & Eg1 & Eb1 & (Hg1 & Hs1 & Hst1) & _).
  unfold take_turn. rewrite Es. simpl mbind. simpl fst. simpl snd.
  destruct (ship_at (grid (ship_manager opp)) (row, column)) eqn:Eship.
  - destruct (process_attack_hit n self1 opp row column Hg1 Hon Ho Eship)
      as (g & new & d & Eset & Ep & Hnew).
    rewrite Ep. rewrite Eg1 in Eset.
    exists (row, column), self1, g. eexists _, _.
    split; [done|]. split; [reflexivity|]. split; [done|].
    split; [simpl; rewrite Eship; exact Eset|]. split; [done|]. simpl.
    split; [by rewrite Eb1|]. split; [done|]. split; [done|].
    split; [by apply Forall_app|by rewrite Eship].
  - destruct (process_attack_miss n self1 opp row column Hg1 Hon Ho Eship)
      as (g & Eset & Ep).
    rewrite Ep. rewrite Eg1 in Eset.
    exists (row, column), self1, g. eexists _, _.
    split; [done|]. split; [reflexivity|]. split; [done|].
    split; [simpl; rewrite Eship; exact Eset|]. split; [done|]. simpl.
    split; [by rewrite Eb1|]. split; [done|]. split; [done|].
    split; [done|by rewrite Eship].
Qed.

(** X12: in a well-formed state (square boards, queued targets on the
    board, a non-empty board) a computer turn raises nothing and leaves a
    well-formed state; it does not write the opponent's grid or attack
    board, nor the computer's own fleet. *)
Theorem take_turn_never_raises n ships rnd self opp :
  (0 < n)%nat → wf_computer n self → shape n (grid (ship_manager opp)) →
  ∃ self' opp',
    take_turn (Z.of_nat n) ships rnd self opp = Some (self', opp') ∧
    wf_computer n self' ∧
    grid (ship_manager opp') = grid (ship_manager opp) ∧
    attack_board opp' = attack_board opp ∧
    ship_manager (base self') = ship_manager (base self).
Proof.
  intros Hn Hwf Ho.
  destruct (take_turn_spec n ships rnd self opp Hn Hwf Ho)
    as (p & self1 & g & self' & opp' & Es & Et & Hon & Eg & Eg' & Eb & Epm
        & Hpm & Hst & Eo).
  exists self', opp'. split; [exact Et|].
  destruct Hwf as (Hg & Hs & _).
  split; [split; [|split; [done|done]]|].
  - rewrite Eg'. exact (setitem2_shape n _ _ _ _ _ Hg Eg).
  - rewrite Eo, Eb. by destruct (ship_at _ p).
Qed.

Lemma wf_new_ComputerPlayer n :
  wf_computer (Z.to_nat n) (new_ComputerPlayer n).
Proof.
  split; [apply shape_new_grid|]. split; [apply shape_np_zeros|constructor].
Qed.

Lemma take_turn_never_raises_witness :
  ∃ self' opp',
    take_turn 8 fleet5 0 (new_ComputerPlayer 8) (new_BasePlayer 8 "Player")
      = Some (self', opp') ∧
    wf_computer 8 self'.
Proof.
  destruct (take_turn_never_raises 8 fleet5 0 (new_ComputerPlayer 8)
              (new_BasePlayer 8 "Player")) as (self' & opp' & E & Hwf & _).
  - lia.
  - apply (wf_new_ComputerPlayer 8).
  - apply (shape_new_grid 8).
  - exists self', opp'. split; [exact E|exact Hwf].
Defined.

(** X13: a computer turn in a well-formed state writes exactly one cell of
    the attack board, a coordinate of the board: the hit mark if the
    opponent's grid has a ship there, the miss mark otherwise.  Every
    other cell is as before. *)
Theorem take_turn_marks_one_cell n ships rnd self opp :
  (0 < n)%nat → wf_computer n self → shape n (grid (ship_manager opp)) →
  ∃ p self' opp',
    take_turn (Z.of_nat n) ships rnd self opp = Some (self', opp') ∧
    on_board (Z.of_nat n) p = true ∧
    ∀ r c, 0 <= r < Z.of_nat n → 0 <= c < Z.of_nat n →
      Py.getitem2 (attack_grid self') r c =
        if (r =? p.1) && (c =? p.2)
        then Some (if ship_at (grid (ship_manager opp)) p then "X" else "-")
        else Py.getitem2 (attack_grid self) r c.
Proof.
  intros Hn Hwf Ho.
  destruct (take_turn_spec n ships rnd self opp Hn Hwf Ho)
    as (p & self1 & g & self' & opp' & Es & Et & Hon & Eg & Eg' & _).
  exists p, self', opp'. split; [exact Et|]. split; [exact Hon|].
  destruct Hwf as (Hg & _). pose proof Hon as [Hr Hc]%on_board_bounds.
  destruct (setitem2_nonneg n (attack_grid self) p.1 p.2
              (if ship_at (grid (ship_manager opp)) p then "X" else "-"))
    as (g' & Eg2 & _ & Hget); [done|done|done|].
  rewrite Eg in Eg2. inversion Eg2; subst g'. by rewrite Eg'.
Qed.

(** The first turn against a player with no ship on the board. *)
Lemma take_turn_marks_one_cell_witness :
  ∃ p self' opp',
    take_turn 8 fleet5 0 (new_ComputerPlayer 8) (new_BasePlayer 8 "Player")
      = Some (self', opp') ∧
    on_board 8 p = true ∧
    ∀ r c, 0 <= r < 8 → 0 <= c < 8 →
      Py.getitem2 (attack_grid self') r c =
        if (r =? p.1) && (c =? p.2)
        then Some (if ship_at (grid (ship_manager (new_BasePlayer 8 "Player"))) p
                   then "X" else "-")
        else Py.getitem2 (attack_grid (new_ComputerPlayer 8)) r c.
Proof.
  apply (take_turn_marks_one_cell 8 fleet5 0 (new_ComputerPlayer 8)
           (new_BasePlayer 8 "Player")).
  - lia.
  - apply (wf_new_ComputerPlayer 8).
  - apply (shape_new_grid 8).
Defined.







Lemma shape_replicate {A} n (v : A) : shape n (replicate n (replicate n v)).
Proof.
  split; [by rewrite length_replicate|].
  apply Forall_replicate. by rewrite length_replicate.
Qed.


Lemma square_ext {A} n (a b : list (list A)) :
  shape n a → shape n b →
  (∀ r c, 0 <= r < Z.of_nat n → 0 <= c < Z.of_nat n →
          Py.getitem2 a r c = Py.getitem2 b r c) →
  a = b.
Proof.
  intros Ha Hb H. apply list_eq. intros i.
  destruct (decide (i < n)%nat) as [Hi|Hi].
  2:{ rewrite !lookup_ge_None_2; [done| |];
        [destruct Hb as [-> _]|destruct Ha as [-> _]]; lia. }
  destruct (lookup_lt_is_Some_2 a i) as [ra Era]; [destruct Ha as [-> _]; lia|].
  destruct (lookup_lt_is_Some_2 b i) as [rb Erb]; [destruct Hb as [-> _]; lia|].
  rewrite Era, Erb. f_equal. apply list_eq. intros j.
  pose proof (shape_row _ _ _ _ Ha Era) as La.
  pose proof (shape_row _ _ _ _ Hb Erb) as Lb.
  destruct (decide (j < n)%nat) as [Hj|Hj].
  2:{ rewrite !lookup_ge_None_2; [done|lia|lia]. }
  specialize (H (Z.of_nat i) (Z.of_nat j)).
  rewrite !(getitem2_nonneg n) in H by (done || lia).
  rewrite !Nat2Z.id, Era, Erb in H. simpl in H. apply H; lia.
Qed.

(** X17: the probability map is recomputed from scratch.  Two calls of
    [update_probability_map] on states with the same square attack board
    leave the same map, whatever the maps held before, whatever the hunt
    states, and whoever the opponents are. *)
Theorem update_probability_map_recomputed n ships self1 opp1 self2 opp2 :
  shape n (attack_grid self1) →
  attack_grid self2 = attack_grid self1 →
  shape n (probability_map self1) → shape n (probability_map self2) →
  ∃ pm,
    update_probability_map (Z.of_nat n) ships self1 opp1
      = Some (set_probability_map self1 pm) ∧
    update_probability_map (Z.of_nat n) ships self2 opp2
      = Some (set_probability_map self2 pm).
Proof.
  intros Hg Eg Hs1 Hs2.
  destruct (update_probability_map_weights n ships self1 opp1)
    as (pm1 & E1 & Hp1 & Hw1); [done|done|].
  destruct (update_probability_map_weights n ships self2 opp2)
    as (pm2 & E2 & Hp2 & Hw2); [by rewrite Eg|done|].
  exists pm1. split; [exact E1|]. rewrite E2. do 2 f_equal.
  apply (square_ext n); [done|done|].
  intros r c Hr Hc. rewrite Hw1, Hw2 by done. by rewrite Eg.
Qed.

(** The map of a new player, and the map of a player who already hunts. *)
Lemma update_probability_map_recomputed_witness :
  ∃ pm,
    update_probability_map 8 fleet5 (new_ComputerPlayer 8)
      (new_BasePlayer 8 "Player")
      = Some (set_probability_map (new_ComputerPlayer 8) pm) ∧
    update_probability_map 8 fleet5
      (set_hunt (new_ComputerPlayer 8) (Some (3, 3)) [(3, 4)] (Some "H"))
      (new_BasePlayer 8 "Computer")
      = Some (set_probability_map
                (set_hunt (new_ComputerPlayer 8) (Some (3, 3)) [(3, 4)]
                   (Some "H")) pm).
Proof.
  apply (update_probability_map_recomputed 8 fleet5).
  - apply (shape_new_grid 8).
  - reflexivity.
  - apply (shape_np_zeros 8).
  - apply (shape_np_zeros 8).
Defined.

(** X18: for an origin on a square attack board, [can_place_ship] raises
    nothing, never reads its [opponent] argument, and answers true exactly
    when every cell of the run is on the board and was not attacked. *)
Theorem can_place_ship_iff n self row col length o :
  shape n (attack_grid self) →
  0 <= row < Z.of_nat n → 0 <= col < Z.of_nat n →
  ∃ b, (∀ opp', can_place_ship (Z.of_nat n) self opp' row col length o = Some b) ∧
    (b = true ↔
     ∀ p, p ∈ run_cells row col o length →
          on_board (Z.of_nat n) p = true ∧
          cell_attacked (attack_grid self) p = false).
Proof.
  intros Hg Hr Hc.
  exists (placeable (Z.of_nat n) (attack_grid self) row col length o).
  split; [intros opp'; by apply can_place_ship_spec|].
  unfold placeable. rewrite andb_true_iff, forallb_forall.
  assert (Hv : (if String.eqb o "H" then col + length <=? Z.of_nat n
                else row + length <=? Z.of_nat n)
               = validate_placement (Z.of_nat n) length row col o) by done.
  rewrite Hv. split.
  - intros [Hfit Hfree] p Hp. split.
    + by apply (validate_placement_on_board (Z.of_nat n) length row col o).
    + apply negb_true_iff. apply Hfree. by apply list_elem_of_In.
  - intros H. split.
    + apply (validate_placement_run_on_board_iff (Z.of_nat n)); [done|done|].
      intros p Hp. by apply H.
    + intros p Hp. apply negb_true_iff. apply H. by apply list_elem_of_In.
Qed.

Lemma can_place_ship_iff_witness :
  ∃ b, (∀ opp', can_place_ship 8 (new_ComputerPlayer 8) opp' 0 0 5 "H" = Some b) ∧
    (b = true ↔
     ∀ p, p ∈ run_cells 0 0 "H" 5 →
          on_board 8 p = true ∧
          cell_attacked (attack_grid (new_ComputerPlayer 8)) p = false).
Proof.
  apply (can_place_ship_iff 8 (new_ComputerPlayer 8) 0 0 5 "H").
  - apply (shape_new_grid 8).
  - lia.
  - lia.
Defined.

(** ** The human's turn *)

(** X19: the human's turn, fed positions of the board of which one at
    least was not attacked, and no more positions than the interpreter
    allows nested calls, skips every position that was already attacked,
    asking again, and attacks the first position that was not: that cell of
    the human's attack board, and no other, gets the hit mark if the
    opponent's grid has a ship there (and the hit is registered with the
    opponent's fleet) or the miss mark otherwise.  An attacked cell is
    never attacked again. *)
Theorem HumanPlayer_take_turn_fresh n depth positions self opp q :
  shape n (grid (attack_board self)) →
  shape n (grid (ship_manager opp)) →
  Forall (fun p => on_board (Z.of_nat n) p = true) positions →
  q ∈ positions →
  cell_attacked (grid (attack_board self)) q = false →
  (length positions <= depth)%nat →
  ∃ skipped p rest self' opp',
    HumanPlayer_take_turn depth positions self opp
      = Some (self', opp', rest) ∧
    positions = skipped ++ p :: rest ∧
    Forall (fun s => cell_attacked (grid (attack_board self)) s = true)
      skipped ∧
    cell_attacked (grid (attack_board self)) p = false ∧
    (∀ r c, 0 <= r < Z.of_nat n → 0 <= c < Z.of_nat n →
       Py.getitem2 (grid (attack_board self')) r c =
         if (r =? p.1) && (c =? p.2)
         then Some (if ship_at (grid (ship_manager opp)) p then "X" else "-")
         else Py.getitem2 (grid (attack_board self)) r c) ∧
    ship_manager self' = ship_manager self ∧
    opp' = (if ship_at (grid (ship_manager opp)) p
            then set_ship_manager opp
                   (check_sunk_ship (ship_manager opp) p.1 p.2)
            else opp).
Proof.
  intros Hg Ho Hall Hq Hfree. revert depth.
  induction Hall as [|[row column] positions Hon Hall IH]; intros depth Hd;
    [by apply elem_of_nil in Hq|].
  destruct depth as [|depth]; [simpl in Hd; lia|].
  pose proof Hon as [Hr Hc]%on_board_bounds. simpl in Hr, Hc.
  destruct (getitem2_is_Some n (grid (attack_board self)) row column)
    as [mine Em]; [done|done|done|].
  pose proof (cell_attacked_getitem2 _ _ _ _ Em) as Ea.
  cbn [HumanPlayer_take_turn]. rewrite Em. simpl mbind.
  destruct (attacked mine) eqn:Eatt.
  - apply elem_of_cons in Hq as [->|Hq]; [congruence|].
    destruct (IH Hq depth)
      as (skipped & p & rest & self' & opp' & E & -> & Hsk & Hp & Hget & Hsm & Hopp);
      [simpl in Hd; lia|].
    exists ((row, column) :: skipped), p, rest, self', opp'.
    split; [exact E|]. split; [done|].
    split; [by constructor|]. by repeat split.
  - destruct (getitem2_is_Some n (grid (ship_manager opp)) row column)
      as [theirs Et]; [done|done|done|].
    pose proof (ship_at_getitem2 _ _ _ _ Et) as Es.
    rewrite Et. simpl mbind.
    destruct (setitem2_nonneg n (grid (attack_board self)) row column
                (if String.eqb theirs "X" then "X" else "-"))
      as (g & Eg & _ & Hget); [done|done|done|].
    exists [], (row, column), positions.
    destruct (String.eqb theirs "X") eqn:Ex; rewrite Eg; simpl mbind;
      eexists _, _; (split; [reflexivity|]); (split; [done|]);
      (split; [constructor|]); (split; [done|]); rewrite Es;
      (split; [exact Hget|]); by split.
Qed.

(** A human who has attacked (0, 0) and enters (0, 0) again, then (0, 1),
    with room for a thousand nested calls. *)
Lemma HumanPlayer_take_turn_fresh_witness :
  ∃ g self' opp' rest,
    Py.setitem2 (new_grid 8) 0 0 "-" = Some g ∧
    HumanPlayer_take_turn 1000 [(0, 0); (0, 1); (5, 5)]
      (set_attack_board_grid (new_BasePlayer 8 "Player") g)
      (new_BasePlayer 8 "Computer") = Some (self', opp', rest) ∧
    rest = [(5, 5)] ∧
    Py.getitem2 (grid (attack_board self')) 0 1 = Some "-".
Proof.
  destruct (Py.setitem2 (new_grid 8) 0 0 "-") as [g|] eqn:Eg;
    [|by vm_compute in Eg].
  assert (Hsg : shape 8 g)
    by exact (setitem2_shape 8 _ _ _ _ _ (shape_new_grid 8) Eg).
  destruct (HumanPlayer_take_turn_fresh 8 1000 [(0, 0); (0, 1); (5, 5)]
              (set_attack_board_grid (new_BasePlayer 8 "Player") g)
              (new_BasePlayer 8 "Computer") (0, 1))
    as (skipped & p & rest & self' & opp' & E & Epos & Hsk & Hp & Hget & _).
  - exact Hsg.
  - apply (shape_new_grid 8).
  - repeat constructor.
  - repeat constructor.
  - vm_compute in Eg. inversion Eg. reflexivity.
  - simpl. lia.
  - assert (Hsplit : skipped = [(0, 0)] ∧ p = (0, 1) ∧ rest = [(5, 5)]).
    { vm_compute in Eg. inversion Eg; subst g. clear Eg.
      destruct skipped as [|s0 skipped].
      - simpl in Epos. inversion Epos; subst. by vm_compute in Hp.
      - inversion Epos as [[E0 E1]]. subst s0.
        destruct skipped as [|s1 skipped].
        + simpl in E1. by inversion E1.
        + inversion E1 as [[E2 E3]]. subst s1.
          inversion Hsk as [|? ? _ Hsk']. inversion Hsk' as [|? ? Hbad _].
          by vm_compute in Hbad. }
    destruct Hsplit as (-> & -> & ->).
    exists g, self', opp', [(5, 5)]. split; [reflexivity|].
    split; [exact E|]. split; [reflexivity|].
    rewrite Hget by lia. simpl. reflexivity.
Defined.

(** ** What a computer turn keeps *)

Lemma getitem2_replicate {A} n (v : A) r c :
  0 <= r < Z.of_nat n → 0 <= c < Z.of_nat n →
  Py.getitem2 (replicate n (replicate n v)) r c = Some v.
Proof.
  intros Hr Hc. rewrite (getitem2_nonneg n); [|apply shape_replicate|done|done].
  rewrite lookup_replicate_2 by lia. simpl.
  by rewrite lookup_replicate_2 by lia.
Qed.

(** X20: the attack board never lies.  If every hit mark of the computer's
    attack board is on a ship cell of the opponent's grid and every miss
    mark on a cell without ship, the same holds after a computer turn. *)
Theorem take_turn_keeps_truthful n ships rnd self opp :
  (0 < n)%nat → wf_computer n self → shape n (grid (ship_manager opp)) →
  truthful n (attack_grid self) (grid (ship_manager opp)) →
  ∃ self' opp',
    take_turn (Z.of_nat n) ships rnd self opp = Some (self', opp') ∧
    truthful n (attack_grid self') (grid (ship_manager opp')).
Proof.
  intros Hn Hwf Ho Htrue.
  destruct (take_turn_spec n ships rnd self opp Hn Hwf Ho)
    as (p & self1 & g & self' & opp' & Es & Et & Hon & Eg & Eg' & _ & _ & _
        & _ & Eo).
  exists self', opp'. split; [exact Et|].
  assert (Egrid : grid (ship_manager opp') = grid (ship_manager opp))
    by (rewrite Eo; by destruct (ship_at _ p)).
  rewrite Egrid, Eg'.
  destruct Hwf as (Hg & _). pose proof Hon as [Hr Hc]%on_board_bounds.
  destruct (setitem2_nonneg n (attack_grid self) p.1 p.2
              (if ship_at (grid (ship_manager opp)) p then "X" else "-"))
    as (g' & Eg2 & _ & Hget); [done|done|done|].
  rewrite Eg in Eg2. inversion Eg2; subst g'. clear Eg2.
  intros r c Hr' Hc'. rewrite Hget by done.
  destruct (Z.eqb_spec r p.1) as [->|]; [|by apply Htrue].
  destruct (Z.eqb_spec c p.2) as [->|]; [|by apply Htrue]. simpl.
  replace (p.1, p.2) with p by by destruct p.
  destruct (ship_at (grid (ship_manager opp)) p); split; intros E;
    by inversion E.
Qed.

(** The first turn of a game: the attack board is blank. *)
Lemma take_turn_keeps_truthful_witness :
  ∃ self' opp',
    take_turn 8 fleet5 0 (new_ComputerPlayer 8) (new_BasePlayer 8 "Player")
      = Some (self', opp') ∧
    truthful 8 (attack_grid self') (grid (ship_manager opp')).
Proof.
  apply (take_turn_keeps_truthful 8 fleet5 0 (new_ComputerPlayer 8)
           (new_BasePlayer 8 "Player")).
  - lia.
  - apply (wf_new_ComputerPlayer 8).
  - apply (shape_new_grid 8).
  - intros r c Hr Hc.
    change (attack_grid (new_ComputerPlayer 8))
      with (replicate 8%nat (replicate 8%nat " ")).
    rewrite (getitem2_replicate 8 " " r c) by lia.
    split; intros E; by inversion E.
Defined.

Lemma remaining_positions_check_sunk_le row column sl :
  (remaining_positions (check_sunk_items row column sl)
     <= remaining_positions sl)%nat.
Proof.
  induction sl as [|[k ps] rest IH]; simpl; [lia|].
  destruct (Py.contains coord_eqb (row, column) ps) eqn:Ec.
  - pose proof (length_remove_first _ _ Ec) as Hlen.
    destruct (Py.remove_first coord_eqb (row, column) ps) as [|x ps'] eqn:Er.
    + lia.
    + cbn [remaining_positions]. lia.
  - cbn [remaining_positions]. lia.
Qed.

(** X21: a computer turn against an opponent whose fleet agrees with its
    grid raises nothing, keeps the fleet in agreement with the grid, and
    adds no position to it: the only way it changes the opponent is by
    registering a hit. *)
Theorem take_turn_keeps_opponent_fleet n ships rnd self opp :
  (0 < n)%nat → wf_computer n self → fleet_ok n (ship_manager opp) →
  ∃ self' opp',
    take_turn (Z.of_nat n) ships rnd self opp = Some (self', opp') ∧
    fleet_ok n (ship_manager opp') ∧
    (remaining_positions (ship_locations (ship_manager opp'))
       <= remaining_positions (ship_locations (ship_manager opp)))%nat.
Proof.
  intros Hn Hwf Hok. pose proof Hok as (Ho & Hone & Hheld).
  destruct (take_turn_spec n ships rnd self opp Hn Hwf Ho)
    as (p & self1 & g & self' & opp' & Es & Et & _ & _ & _ & _ & _ & _ & _ & Eo).
  exists self', opp'. split; [exact Et|]. rewrite Eo.
  destruct (ship_at (grid (ship_manager opp)) p); [|split; [done|lia]].
  simpl. split.
  - split; [done|]. simpl. split.
    + intros q. pose proof (ships_holding_check_sunk_items q p.1 p.2
                              (ship_locations (ship_manager opp))).
      specialize (Hone q). lia.
    + intros q Hq. apply Hheld.
      pose proof (ships_holding_check_sunk_items q p.1 p.2
                    (ship_locations (ship_manager opp))). lia.
  - apply remaining_positions_check_sunk_le.
Qed.

(** The first turn against a player whose Carrier lies on row 3, from
    column 1 to column 5: the target (3, 3) is a hit, the hit is registered,
    and four of the five positions are left. *)
Lemma take_turn_keeps_opponent_fleet_witness :
  ∃ sm self' opp',
    deploy_ship (new_ShipManager 8 "Computer") "Carrier" 5 3 1 "H" = Some sm ∧
    take_turn 8 fleet5 0 (new_ComputerPlayer 8)
      (set_ship_manager (new_BasePlayer 8 "Player") sm) = Some (self', opp') ∧
    fleet_ok 8 (ship_manager opp') ∧
    remaining_positions (ship_locations sm) = 5%nat ∧
    remaining_positions (ship_locations (ship_manager opp')) = 4%nat.
Proof.
  destruct (legal_deploy_fleet_ok 8 (new_ShipManager 8 "Computer")
              "Carrier" 5 3 1 "H") as (sm & Esm & Hoksm & Hl).
  - apply (fleet_ok_new 8).
  - lia.
  - lia.
  - reflexivity.
  - reflexivity.
  - destruct (take_turn_keeps_opponent_fleet 8 fleet5 0 (new_ComputerPlayer 8)
                (set_ship_manager (new_BasePlayer 8 "Player") sm))
      as (self' & opp' & E & Hok & _).
    + lia.
    + apply (wf_new_ComputerPlayer 8).
    + exact Hoksm.
    + exists sm, self', opp'. split; [exact Esm|]. split; [exact E|].
      split; [exact Hok|].
      vm_compute in Esm. injection Esm as <-.
      split; [reflexivity|].
      vm_compute in E. injection E as <- <-. reflexivity.
Defined.
